(** * DensePose-ESP32: CSI preprocessing, statistics and synthetic traces

    A shallow embedding of the numerical core of the repository:

    - [Train]   : [CSIDataPreprocessor] of [models/training/train_pose_model.py]
                  ([__init__], [parse_sample], [create_windows]);
    - [Analyze] : [CSIAnalyzer.compute_features] of [tools/analyze_csi.py];
    - [Synth]   : [SyntheticCSIGenerator] of [tools/generate_synthetic_data.py].

    Conventions of the embedding.

    - Python [int]s are [Z]; sequence lengths are [nat] and are injected
      into [Z] with [py_len] wherever the source compares or subtracts them.
    - NumPy float arrays are [list R]: floating-point rounding (and the
      [float32] cast of [parse_sample]) is idealised to real arithmetic.
      Where NumPy would yield [nan] (mean of an empty array) the model has
      the value of a division by zero, about which nothing is proved.
    - Python exceptions are the [Raise] branch of [result].
    - The global state read or written by the generator ([np.random], the
      wall clock, standard output) is the explicit record [world], threaded
      by the monad [M]. *)

From Stdlib Require Import String DecimalString.
From Stdlib Require Import ZArith List Reals Lra Lia Permutation Bool.
Import ListNotations.

Set Implicit Arguments.

(* ================================================================== *)
(** * Python and NumPy primitives *)
(* ================================================================== *)

(** Exceptions the modelled calls can raise. *)
Inductive py_error : Type :=
| KeyError (key : string)
| ValueError (msg : string)
| IndexError (msg : string).

Inductive result (A : Type) : Type :=
| Ok (a : A)
| Raise (e : py_error).

Arguments Ok {A} a.
Arguments Raise {A} e.

Definition res_bind {A B} (r : result A) (k : A -> result B) : result B :=
  match r with
  | Ok a => k a
  | Raise e => Raise e
  end.

Declare Scope res_scope.
Delimit Scope res_scope with res.
Notation "x <- r ;; k" := (res_bind r (fun x => k))
  (at level 61, r at next level, right associativity) : res_scope.
Notation "' p <- r ;; k" := (res_bind r (fun p => k))
  (at level 61, p pattern, r at next level, right associativity) : res_scope.

(** [[f(s) for s in l]] where [f] may raise: the first exception wins. *)
Fixpoint map_result {A B} (f : A -> result B) (l : list A) : result (list B) :=
  match l with
  | [] => Ok []
  | a :: l' => (b <- f a ;; bs <- map_result f l' ;; Ok (b :: bs))%res
  end.

(** A one-dimensional float array. *)
Definition vec : Type := list R.

Module Py.

(** [len(l)] as a Python integer. *)
Definition py_len {A} (l : list A) : Z := Z.of_nat (length l).

(** Normalisation of one slice bound against a sequence of length [n]:
    negative bounds count from the end, everything is clamped to [0, n]. *)
Definition slice_bound (n : nat) (k : Z) : nat :=
  if (k <? 0)%Z then Z.to_nat (Z.of_nat n + k) else Nat.min (Z.to_nat k) n.

(** [l[lo:hi]] *)
Definition py_slice {A} (l : list A) (lo hi : Z) : list A :=
  let a := slice_bound (length l) lo in
  let b := slice_bound (length l) hi in
  firstn (b - a) (skipn a l).

(** [l[:hi]] *)
Definition py_slice_to {A} (l : list A) (hi : Z) : list A :=
  firstn (slice_bound (length l) hi) l.

(** [range(n)]: empty when [n <= 0]. *)
Definition py_range (n : Z) : list Z :=
  map Z.of_nat (seq 0 (Z.to_nat n)).

(** [zip(xs, ys)] stops at the shorter sequence; this is [List.combine]. *)
Definition py_zip {A B} (xs : list A) (ys : list B) : list (A * B) :=
  combine xs ys.

(** [np.pad(v, (0, n), 'constant')]: a negative pad width is rejected. *)
Definition np_pad_right (v : vec) (n : Z) : result vec :=
  if (n <? 0)%Z then Raise (ValueError "index can't contain negative values")
  else Ok (v ++ repeat 0%R (Z.to_nat n)).

Definition np_sum (v : vec) : R := fold_right Rplus 0%R v.

(** [np.mean]: the sum divided by the number of elements. *)
Definition np_mean (v : vec) : R := (np_sum v / INR (length v))%R.

(** [np.var(v, ddof=d)]: mean squared deviation with divisor [n - d].
    NumPy's default is [ddof = 0]. *)
Definition np_var (v : vec) (ddof : nat) : R :=
  let m := np_mean v in
  (np_sum (map (fun x => (x - m) * (x - m)) v) / INR (length v - ddof))%R.

(** [np.std(v, ddof=d)] *)
Definition np_std (v : vec) (ddof : nat) : R := sqrt (np_var v ddof).

(** [np.min] and [np.max] have no identity: an empty array is rejected. *)
Definition np_min (v : vec) : result R :=
  match v with
  | [] => Raise (ValueError "zero-size array to reduction operation minimum which has no identity")
  | x :: xs => Ok (fold_left Rmin xs x)
  end.

Definition np_max (v : vec) : result R :=
  match v with
  | [] => Raise (ValueError "zero-size array to reduction operation maximum which has no identity")
  | x :: xs => Ok (fold_left Rmax xs x)
  end.

(** [np.ptp]: peak to peak, [max - min]. *)
Definition np_ptp (v : vec) : result R :=
  (hi <- np_max v ;; lo <- np_min v ;; Ok (hi - lo)%R)%res.

Fixpoint insert_sorted (x : R) (l : vec) : vec :=
  match l with
  | [] => [x]
  | y :: ys => if Rle_dec x y then x :: l else y :: insert_sorted x ys
  end.

Definition np_sort (v : vec) : vec := fold_right insert_sorted [] v.

(** [np.median]: the middle element of the sorted array, or the mean of
    the two middle elements when the length is even. *)
Definition np_median (v : vec) : R :=
  let s := np_sort v in
  let n := length v in
  if Nat.even n
  then ((nth (n / 2 - 1) s 0 + nth (n / 2) s 0) / 2)%R
  else nth (n / 2) s 0%R.

(** [np.percentile(v, q)] for an integer percentage [q], default linear
    interpolation: the virtual index is [(n - 1) * q / 100]. *)
Definition np_percentile (v : vec) (q : nat) : R :=
  let s := np_sort v in
  let n := length v in
  let lo := ((n - 1) * q / 100)%nat in
  let gamma := (INR (((n - 1) * q) mod 100) / 100)%R in
  let a := nth lo s 0%R in
  let b := nth (Nat.min (lo + 1) (n - 1)) s 0%R in
  (a + gamma * (b - a))%R.

(** [np.clip(v, lo, None)] and [np.clip(v, lo, hi)], that is
    [minimum(maximum(v, lo), hi)] element by element. *)
Definition np_clip_lo (v : vec) (lo : R) : vec := map (fun x => Rmax x lo) v.
Definition np_clip (v : vec) (lo hi : R) : vec :=
  map (fun x => Rmin (Rmax x lo) hi) v.

(** A two-dimensional float array: its rows and its column count (which
    NumPy keeps even when there are no rows). *)
Record array2 : Type := mk_array2 { a2_cols : nat; a2_rows : list vec }.

Definition a2_shape (a : array2) : nat * nat := (length (a2_rows a), a2_cols a).

(** [np.array(rows)] on a list of 1-D arrays: rows of unequal length are
    rejected (inhomogeneous shape, NumPy >= 1.24). *)
Definition np_array2 (rows : list vec) : result array2 :=
  match rows with
  | [] => Ok (mk_array2 0 [])
  | r :: _ =>
      if forallb (fun r' => Nat.eqb (length r') (length r)) rows
      then Ok (mk_array2 (length r) rows)
      else Raise (ValueError "inhomogeneous shape")
  end.

(** [a[lo:hi]]: a slice along the first axis keeps the column count. *)
Definition a2_slice (a : array2) (lo hi : Z) : array2 :=
  mk_array2 (a2_cols a) (py_slice (a2_rows a) lo hi).

Definition shape_eqb (s t : nat * nat) : bool :=
  Nat.eqb (fst s) (fst t) && Nat.eqb (snd s) (snd t).

(** [np.array(X)] on a list of 2-D arrays: all shapes must agree. *)
Definition np_array3 (X : list array2) : result (list array2) :=
  match X with
  | [] => Ok []
  | a :: _ =>
      if forallb (fun a' => shape_eqb (a2_shape a') (a2_shape a)) X
      then Ok X
      else Raise (ValueError "inhomogeneous shape")
  end.

(** Shape of the array built by [np_array3]: [(0,)] for no windows,
    otherwise [(num_windows, rows, cols)]. *)
Definition shape3 (X : list array2) : list nat :=
  match X with
  | [] => [0%nat]
  | a :: _ => [length X; length (a2_rows a); a2_cols a]
  end.

End Py.

Import Py.

(* ================================================================== *)
(** * Data model: one CSI record (a JSON object with optional keys) *)
(* ================================================================== *)

Record sample : Type := mk_sample {
  s_ts : option Z;
  s_rssi : option R;
  s_num : option Z;
  s_amp : option vec;
  s_phase : option vec;
  s_label : option string;
  s_description : option string
}.

(** The data-model invariant of a CSISample: an amplitude is present and a
    phase, when present, has the amplitude's length. *)
Definition well_formed (s : sample) : Prop :=
  exists amp, s_amp s = Some amp /\
    match s_phase s with
    | Some ph => length ph = length amp
    | None => True
    end.

(* ================================================================== *)
(** * models/training/train_pose_model.py : CSIDataPreprocessor *)
(* ================================================================== *)

Module Train.

Local Open Scope Z_scope.
Local Open Scope res_scope.

Record CSIDataPreprocessor : Type := mk_preprocessor {
  window_size : Z;
  num_subcarriers : Z;
  feature_dim : Z
}.

(** [__init__(self, window_size=50, num_subcarriers=52)]: three
    assignments, no check of the arguments. *)
Definition init (window_size num_subcarriers : Z) : result CSIDataPreprocessor :=
  Ok (mk_preprocessor window_size num_subcarriers (num_subcarriers * 2)).

Definition eps : R := 1e-6%R.

(** [(amp - np.mean(amp)) / (np.std(amp) + 1e-6)] *)
Definition zscore (amp : vec) : vec :=
  let m := np_mean amp in
  let sd := np_std amp 0 in
  map (fun x => ((x - m) / (sd + eps))%R) amp.

(** [phase / np.pi] *)
Definition scale_phase (phase : vec) : vec := map (fun p => (p / PI)%R) phase.

(** The pad-or-truncate step: the branch is chosen by [len(amp)] alone
    and applied to both arrays. *)
Definition resize_pair (S : Z) (amp phase : vec) : result (vec * vec) :=
  if py_len amp <? S then
    amp' <- np_pad_right amp (S - py_len amp) ;;
    phase' <- np_pad_right phase (S - py_len phase) ;;
    Ok (amp', phase')
  else
    Ok (py_slice_to amp S, py_slice_to phase S).

Definition parse_sample (self : CSIDataPreprocessor) (s : sample) : result vec :=
  match s_amp s with
  | None => Raise (KeyError "amp")
  | Some amp =>
      let phase :=
        match s_phase s with
        | Some ph => ph
        | None => repeat 0%R (length amp)
        end in
      '(amp, phase) <- resize_pair (num_subcarriers self) amp phase ;;
      Ok (zscore amp ++ scale_phase phase)
  end.

(** The constant [label_map] dictionary. *)
Definition label_map : list (string * Z) :=
  [ ("empty"%string, 0); ("present"%string, 1); ("moving"%string, 2);
    ("walking"%string, 3); ("sitting"%string, 4); ("standing"%string, 5) ].

(** [d.get(key, default)] on a dictionary given by its items. *)
Fixpoint dict_get {V} (d : list (string * V)) (key : string) (default : V) : V :=
  match d with
  | [] => default
  | (k, v) :: d' => if String.eqb key k then v else dict_get d' key default
  end.

Definition label_id (label : string) : Z := dict_get label_map label 0.

(** [by_label]: a dictionary in insertion order.  [group_add] is the loop
    body [if label not in by_label: by_label[label] = []] followed by
    [by_label[label].append(sample)]. *)
Fixpoint group_add (by_label : list (string * list sample))
         (label : string) (s : sample) : list (string * list sample) :=
  match by_label with
  | [] => [(label, [s])]
  | (k, g) :: rest =>
      if String.eqb label k then (k, g ++ [s]) :: rest
      else (k, g) :: group_add rest label s
  end.

Definition group_by_label (samples : list sample) (labels : list string)
  : list (string * list sample) :=
  fold_left (fun acc sl => group_add acc (snd sl) (fst sl))
            (py_zip samples labels) [].

(** The sliding-window loop over one group:
    [for i in range(len(features) - window_size + 1)] appends
    [features[i:i + window_size]] and the group's class id. *)
Definition windows_of (W : Z) (features : array2) : list array2 :=
  map (fun i => a2_slice features i (i + W))
      (py_range (py_len (a2_rows features) - W + 1)).

Definition group_windows (self : CSIDataPreprocessor)
           (label : string) (label_samples : list sample)
  : result (list array2 * list Z) :=
  rows <- map_result (parse_sample self) label_samples ;;
  features <- np_array2 rows ;;
  let ws := windows_of (window_size self) features in
  Ok (ws, map (fun _ => label_id label) ws).

(** The loop over [by_label.items()], extending [X] and [y]. *)
Fixpoint all_windows (self : CSIDataPreprocessor)
         (groups : list (string * list sample)) (X : list array2) (y : list Z)
  : result (list array2 * list Z) :=
  match groups with
  | [] => Ok (X, y)
  | (label, g) :: rest =>
      '(ws, ids) <- group_windows self label g ;;
      all_windows self rest (X ++ ws) (y ++ ids)
  end.

Definition create_windows (self : CSIDataPreprocessor)
           (samples : list sample) (labels : list string)
  : result (list array2 * list Z) :=
  '(X, y) <- all_windows self (group_by_label samples labels) [] [] ;;
  X' <- np_array3 X ;;
  Ok (X', y).

End Train.

(* ================================================================== *)
(** * tools/analyze_csi.py : CSIAnalyzer.compute_features *)
(* ================================================================== *)

Module Analyze.

Local Open Scope res_scope.

(** The [features] dictionary, one field per key. *)
Record features : Type := mk_features {
  amp_mean : R;
  amp_std : R;
  amp_var : R;
  amp_min : R;
  amp_max : R;
  amp_range : R;
  amp_median : R;
  amp_q25 : R;
  amp_q75 : R;
  phase_mean : R;
  phase_std : R;
  phase_var : R;
  rssi : R;
  num_subcarriers : Z
}.

(** [stat(phase) if len(phase) > 0 else 0] *)
Definition if_nonempty (phase : vec) (stat : R) : R :=
  if (0 <? py_len phase)%Z then stat else 0%R.

Definition compute_features (s : sample) : result features :=
  match s_amp s with
  | None => Raise (KeyError "amp")
  | Some amp =>
      let phase := match s_phase s with Some ph => ph | None => [] end in
      let a_mean := np_mean amp in
      let a_std := np_std amp 0 in
      let a_var := np_var amp 0 in
      a_min <- np_min amp ;;
      a_max <- np_max amp ;;
      a_range <- np_ptp amp ;;
      Ok (mk_features
            a_mean a_std a_var a_min a_max a_range
            (np_median amp) (np_percentile amp 25) (np_percentile amp 75)
            (if_nonempty phase (np_mean phase))
            (if_nonempty phase (np_std phase 0))
            (if_nonempty phase (np_var phase 0))
            (match s_rssi s with Some r => r | None => 0%R end)
            (match s_num s with Some n => n | None => py_len amp end))
  end.

(** The statistics as the specification words them, for comparison with
    what [compute_features] computes: the population variance divides
    the summed squared deviations by [n], the sample variance by [n - 1]. *)
Definition population_variance (v : vec) : R :=
  (np_sum (map (fun x => Rsqr (x - np_mean v)) v) / INR (length v))%R.

Definition sample_variance (v : vec) : R :=
  (np_sum (map (fun x => Rsqr (x - np_mean v)) v) / (INR (length v) - 1))%R.

End Analyze.

(* ================================================================== *)
(** * tools/generate_synthetic_data.py : SyntheticCSIGenerator *)
(* ================================================================== *)

(** The pseudo-random source behind [np.random]: the generator state and
    the three primitive draws the legacy [RandomState] methods used by the
    source are built on, with the ranges NumPy documents for them. *)
Class NumpyRandom (rng : Type) : Type := {
  (** state installed by [np.random.seed(n)] *)
  seed_state : Z -> rng;
  (** one standard-normal deviate *)
  standard_normal : rng -> R * rng;
  (** [np.random.randint(low, high)], a value of [[low, high)] *)
  randint_draw : Z -> Z -> rng -> Z * rng;
  (** [random_interval(max)], a value of [[0, max]] *)
  random_interval : nat -> rng -> nat * rng;
  randint_range : forall lo hi g,
    (lo < hi)%Z -> (lo <= fst (randint_draw lo hi g) < hi)%Z;
  random_interval_le : forall n g, (fst (random_interval n g) <= n)%nat
}.

Module Synth.

Section Generator.

Context {rng : Type} `{NumpyRandom rng}.

(** Everything outside the program that the generator reads or writes. *)
Record world : Type := mk_world {
  w_rng : rng;
  w_clock : string;
  w_stdout : list string
}.

Definition set_rng (w : world) (g : rng) : world :=
  mk_world g (w_clock w) (w_stdout w).

(** Computations over the world that may raise. *)
Definition M (A : Type) : Type := world -> result (A * world).

Definition ret {A} (a : A) : M A := fun w => Ok (a, w).

Definition bind {A B} (m : M A) (k : A -> M B) : M B :=
  fun w => match m w with
           | Ok (a, w') => k a w'
           | Raise e => Raise e
           end.

Declare Scope m_scope.
Delimit Scope m_scope with M.
Notation "x <- m ;; k" := (bind m (fun x => k))
  (at level 61, m at next level, right associativity) : m_scope.
Notation "m ;;; k" := (bind m (fun _ => k))
  (at level 61, right associativity) : m_scope.
Local Open Scope m_scope.

(** [np.random.seed(n)] *)
Definition np_random_seed (n : Z) : M unit :=
  fun w => Ok (tt, set_rng w (seed_state n)).

(** [size] successive deviates [loc + scale * z]. *)
Fixpoint normal_draws (loc scale : R) (size : nat) (g : rng) : vec * rng :=
  match size with
  | O => ([], g)
  | S n =>
      let (z, g1) := standard_normal g in
      let (zs, g2) := normal_draws loc scale n g1 in
      ((loc + scale * z)%R :: zs, g2)
  end.

(** [np.random.normal(loc, scale)]: a negative scale is rejected. *)
Definition np_random_normal (loc scale : R) : M R :=
  fun w =>
    if Rlt_dec scale 0 then Raise (ValueError "scale < 0")
    else let (z, g) := standard_normal (w_rng w) in
         Ok ((loc + scale * z)%R, set_rng w g).

(** [np.random.normal(loc, scale, size)]: a negative size is rejected. *)
Definition np_random_normal_vec (loc scale : R) (size : Z) : M vec :=
  fun w =>
    if Rlt_dec scale 0 then Raise (ValueError "scale < 0")
    else if (size <? 0)%Z then Raise (ValueError "negative dimensions are not allowed")
    else let (v, g) := normal_draws loc scale (Z.to_nat size) (w_rng w) in
         Ok (v, set_rng w g).

(** [np.random.randint(low, high)] *)
Definition np_random_randint (low high : Z) : M Z :=
  fun w =>
    if (high <=? low)%Z then Raise (ValueError "low >= high")
    else let (t, g) := randint_draw low high (w_rng w) in
         Ok (t, set_rng w g).

(** [datetime.now().isoformat()] *)
Definition datetime_now_isoformat : M string := fun w => Ok (w_clock w, w).

(** [print(line)] *)
Definition print (line : string) : M unit :=
  fun w => Ok (tt, mk_world (w_rng w) (w_clock w) (w_stdout w ++ [line])).

(** [for x in l: acc = body(x, acc)] *)
Fixpoint for_each {A B} (l : list A) (body : A -> B -> M B) (acc : B) : M B :=
  match l with
  | [] => ret acc
  | x :: l' => acc' <- body x acc ;; for_each l' body acc'
  end.

Record SyntheticCSIGenerator : Type := mk_generator {
  num_subcarriers : Z;
  sampling_rate : Z
}.

Definition generate_empty_room (self : SyntheticCSIGenerator) (num_samples : Z)
  : M (list sample) :=
  for_each (py_range num_samples) (fun _ samples =>
    amp <- np_random_normal_vec 20.0 1.5 (num_subcarriers self) ;;
    let amp := np_clip_lo amp 0 in
    phase <- np_random_normal_vec 0 0.05 (num_subcarriers self) ;;
    ts <- np_random_randint 100000 999999 ;;
    rssi <- np_random_normal (-50) 2 ;;
    ret (samples ++ [mk_sample (Some ts) (Some rssi)
                       (Some (num_subcarriers self)) (Some amp) (Some phase)
                       (Some "empty"%string)
                       (Some "Empty room - no person present"%string)])) [].

Definition generate_person_present (self : SyntheticCSIGenerator) (num_samples : Z)
  : M (list sample) :=
  for_each (py_range num_samples) (fun _ samples =>
    amp <- np_random_normal_vec 25.0 3.0 (num_subcarriers self) ;;
    let amp := np_clip_lo amp 0 in
    phase <- np_random_normal_vec 0 0.2 (num_subcarriers self) ;;
    ts <- np_random_randint 100000 999999 ;;
    rssi <- np_random_normal (-42) 3 ;;
    ret (samples ++ [mk_sample (Some ts) (Some rssi)
                       (Some (num_subcarriers self)) (Some amp) (Some phase)
                       (Some "present"%string)
                       (Some "Person present, sitting or standing still"%string)])) [].

(** The loop state of [generate_moving] is the pair of the list built so
    far and the accumulated [phase_offset]. *)
Definition generate_moving (self : SyntheticCSIGenerator) (num_samples : Z)
  : M (list sample) :=
  st <- for_each (py_range num_samples) (fun i (st : list sample * R) =>
    let (samples, phase_offset) := st in
    let base := (25.0 + 5.0 * sin (2 * PI * IZR i / 20))%R in
    amp <- np_random_normal_vec base 4.0 (num_subcarriers self) ;;
    let amp := np_clip_lo amp 0 in
    step <- np_random_normal 0 0.1 ;;
    let phase_offset := (phase_offset + step)%R in
    phase <- np_random_normal_vec phase_offset 0.3 (num_subcarriers self) ;;
    let phase := np_clip phase (- PI) PI in
    ts <- np_random_randint 100000 999999 ;;
    rssi <- np_random_normal (-40) 5 ;;
    ret (samples ++ [mk_sample (Some ts) (Some rssi)
                       (Some (num_subcarriers self)) (Some amp) (Some phase)
                       (Some "moving"%string)
                       (Some "Person moving around"%string)],
         phase_offset)) ([], 0%R) ;;
  ret (fst st).

Definition generate_walking (self : SyntheticCSIGenerator) (num_samples : Z)
  : M (list sample) :=
  for_each (py_range num_samples) (fun i samples =>
    let walking_phase := (2 * PI * IZR i / 10)%R in
    let amplitude_mod := (8.0 * sin walking_phase + 3.0 * sin (2 * walking_phase))%R in
    amp <- np_random_normal_vec (25.0 + amplitude_mod) 3.5 (num_subcarriers self) ;;
    let amp := np_clip_lo amp 0 in
    phase <- np_random_normal_vec 0 (0.25 + 0.15 * sin walking_phase)
               (num_subcarriers self) ;;
    let phase := np_clip phase (- PI) PI in
    ts <- np_random_randint 100000 999999 ;;
    rssi <- np_random_normal (-38) 4 ;;
    ret (samples ++ [mk_sample (Some ts) (Some rssi)
                       (Some (num_subcarriers self)) (Some amp) (Some phase)
                       (Some "walking"%string)
                       (Some "Person walking back and forth"%string)])) [].

Definition generate_sitting (self : SyntheticCSIGenerator) (num_samples : Z)
  : M (list sample) :=
  for_each (py_range num_samples) (fun _ samples =>
    amp <- np_random_normal_vec 23.0 2.2 (num_subcarriers self) ;;
    let amp := np_clip_lo amp 0 in
    phase <- np_random_normal_vec 0 0.15 (num_subcarriers self) ;;
    ts <- np_random_randint 100000 999999 ;;
    rssi <- np_random_normal (-44) 2 ;;
    ret (samples ++ [mk_sample (Some ts) (Some rssi)
                       (Some (num_subcarriers self)) (Some amp) (Some phase)
                       (Some "sitting"%string)
                       (Some "Person sitting still"%string)])) [].

Definition generate_standing (self : SyntheticCSIGenerator) (num_samples : Z)
  : M (list sample) :=
  for_each (py_range num_samples) (fun _ samples =>
    amp <- np_random_normal_vec 24.0 2.8 (num_subcarriers self) ;;
    let amp := np_clip_lo amp 0 in
    phase <- np_random_normal_vec 0 0.22 (num_subcarriers self) ;;
    ts <- np_random_randint 100000 999999 ;;
    rssi <- np_random_normal (-43) 2.5 ;;
    ret (samples ++ [mk_sample (Some ts) (Some rssi)
                       (Some (num_subcarriers self)) (Some amp) (Some phase)
                       (Some "standing"%string)
                       (Some "Person standing still"%string)])) [].

(** [x[i] = v] on a list, for [i] in range. *)
Fixpoint list_set {A} (l : list A) (i : nat) (v : A) : list A :=
  match l, i with
  | [], _ => []
  | _ :: t, O => v :: t
  | h :: t, S i' => h :: list_set t i' v
  end.

(** [x[i], x[j] = x[j], x[i]]: both reads are checked against the length. *)
Definition swap {A} (x : list A) (i j : nat) : result (list A) :=
  match nth_error x j, nth_error x i with
  | Some xj, Some xi => Ok (list_set (list_set x i xj) j xi)
  | _, _ => Raise (IndexError "list index out of range")
  end.

(** The loop of [np.random.shuffle] on a Python list:
    [for i in reversed(range(1, n)): j = random_interval(i); swap i, j]. *)
Fixpoint shuffle_from {A} (i : nat) (x : list A) (g : rng) : result (list A * rng) :=
  match i with
  | O => Ok (x, g)
  | S i' =>
      let (j, g') := random_interval i g in
      match swap x i j with
      | Ok x' => shuffle_from i' x' g'
      | Raise e => Raise e
      end
  end.

Definition np_random_shuffle {A} (x : list A) : M (list A) :=
  fun w =>
    match shuffle_from (length x - 1) x (w_rng w) with
    | Ok (x', g) => Ok (x', set_rng w g)
    | Raise e => Raise e
    end.

Record metadata : Type := mk_metadata {
  generated_at : string;
  total_packets : Z;
  labels : list string;
  synthetic : bool;
  description : string
}.

Record dataset : Type := mk_dataset {
  meta : metadata;
  data : list sample
}.

(** [str(n)] for an integer inside an f-string. *)
Definition str (n : Z) : string := NilZero.string_of_int (Z.to_int n).

(** [s['label']] *)
Definition get_label (s : sample) : result string :=
  match s_label s with
  | Some l => Ok l
  | None => Raise (KeyError "label")
  end.

(** [list(set(s['label'] for s in all_samples))]: the distinct labels.
    Python leaves the iteration order of a set of strings unspecified; the
    model lists them in the order [nodup] keeps. *)
Definition label_set (all_samples : list sample) : M (list string) :=
  fun w =>
    match map_result get_label all_samples with
    | Ok ls => Ok (nodup string_dec ls, w)
    | Raise e => Raise e
    end.

Definition generate_dataset (self : SyntheticCSIGenerator) (samples_per_class : Z)
  : M dataset :=
  print "Generating synthetic CSI dataset..." ;;;
  let all_samples := @nil sample in
  print ("  - Empty room: " ++ str samples_per_class ++ " samples") ;;;
  new <- generate_empty_room self samples_per_class ;;
  let all_samples := (all_samples ++ new)%list in
  print ("  - Person present: " ++ str samples_per_class ++ " samples") ;;;
  new <- generate_person_present self samples_per_class ;;
  let all_samples := (all_samples ++ new)%list in
  print ("  - Moving: " ++ str samples_per_class ++ " samples") ;;;
  new <- generate_moving self samples_per_class ;;
  let all_samples := (all_samples ++ new)%list in
  print ("  - Walking: " ++ str samples_per_class ++ " samples") ;;;
  new <- generate_walking self samples_per_class ;;
  let all_samples := (all_samples ++ new)%list in
  print ("  - Sitting: " ++ str samples_per_class ++ " samples") ;;;
  new <- generate_sitting self samples_per_class ;;
  let all_samples := (all_samples ++ new)%list in
  print ("  - Standing: " ++ str samples_per_class ++ " samples") ;;;
  new <- generate_standing self samples_per_class ;;
  let all_samples := (all_samples ++ new)%list in
  all_samples <- np_random_shuffle all_samples ;;
  now <- datetime_now_isoformat ;;
  labels <- label_set all_samples ;;
  ret (mk_dataset
         (mk_metadata now (py_len all_samples) labels true
            "Synthetic CSI data for ML pipeline testing")
         all_samples).

(** The six activity classes and the generator of each. *)
Inductive pose_class : Type :=
| Empty | Present | Moving | Walking | Sitting | Standing.

Definition class_label (c : pose_class) : string :=
  match c with
  | Empty => "empty"
  | Present => "present"
  | Moving => "moving"
  | Walking => "walking"
  | Sitting => "sitting"
  | Standing => "standing"
  end.

Definition generate (self : SyntheticCSIGenerator) (c : pose_class) (count : Z)
  : M (list sample) :=
  match c with
  | Empty => generate_empty_room self count
  | Present => generate_person_present self count
  | Moving => generate_moving self count
  | Walking => generate_walking self count
  | Sitting => generate_sitting self count
  | Standing => generate_standing self count
  end.

(** A seeded session: [np.random.seed(seed)] followed by the given
    generator calls in order, collecting what each returns. *)
Fixpoint run_calls (self : SyntheticCSIGenerator) (calls : list (pose_class * Z))
  : M (list (list sample)) :=
  match calls with
  | [] => ret []
  | (c, n) :: rest =>
      out <- generate self c n ;;
      outs <- run_calls self rest ;;
      ret (out :: outs)
  end.

Definition seeded_session (self : SyntheticCSIGenerator) (seed : Z)
           (calls : list (pose_class * Z)) : M (list (list sample)) :=
  np_random_seed seed ;;; run_calls self calls.

(** Number of samples of a list that carry a given label. *)
Definition has_label (l : string) (s : sample) : bool :=
  match s_label s with
  | Some l' => String.eqb l l'
  | None => false
  end.

Definition count_label (l : string) (samples : list sample) : nat :=
  length (filter (has_label l) samples).

(** All phase values of a sample lie in [[-pi, pi]]. *)
Definition phase_in_range (s : sample) : Prop :=
  match s_phase s with
  | Some ph => Forall (fun p => (- PI <= p <= PI)%R) ph
  | None => True
  end.

(** Specification predicates over computations. *)

(** [m] returns, from every world, a value satisfying [Q]. *)
Definition returns {A} (m : M A) (Q : A -> Prop) : Prop :=
  forall w, exists a w', m w = Ok (a, w') /\ Q a.

(** Two worlds with the same pseudo-random state; clock and output may
    differ. *)
Definition same_stream (w1 w2 : world) : Prop := w_rng w1 = w_rng w2.

(** Two outcomes agree: the same exception, or the same value and the same
    pseudo-random state afterwards. *)
Definition same_outcome {A} (r1 r2 : result (A * world)) : Prop :=
  match r1, r2 with
  | Ok (a1, w1), Ok (a2, w2) => a1 = a2 /\ same_stream w1 w2
  | Raise e1, Raise e2 => e1 = e2
  | _, _ => False
  end.

(** What a generated sample of class label [L] looks like: it carries the
    label and the subcarrier count, a clipped amplitude of [S] entries and a
    phase of [S] entries each satisfying [phase_ok]. *)
Definition generated (S : Z) (L : string) (phase_ok : R -> Prop) (s : sample) : Prop :=
  s_label s = Some L /\ s_num s = Some S /\
  (exists amp, s_amp s = Some amp /\ length amp = Z.to_nat S /\
               Forall (fun a => (0 <= a)%R) amp) /\
  (exists ph, s_phase s = Some ph /\ length ph = Z.to_nat S /\
              Forall phase_ok ph).

(** The loop invariant of every generator: [i] samples so far, all of the
    class being generated. *)
Definition built (S : Z) (L : string) (phase_ok : R -> Prop)
           (i : nat) (samples : list sample) : Prop :=
  length samples = i /\ Forall (generated S L phase_ok) samples.

(** A phase value drawn as [0 + sigma * z] from a deviate satisfying [P]. *)
Definition drawn (P : R -> Prop) (sigma : R) (x : R) : Prop :=
  exists z, P z /\ x = (0 + sigma * z)%R.

Definition in_pi_range (x : R) : Prop := (- PI <= x <= PI)%R.

(** No assumption on the deviates, and deviates within 13 standard
    deviations. *)
Definition any_deviate (z : R) : Prop := True.

Definition bounded_deviate (z : R) : Prop := (-13 <= z <= 13)%R.

(** [m] is determined by the pseudo-random stream alone. *)
Definition stream_determined {A} (m : M A) : Prop :=
  forall w1 w2, same_stream w1 w2 -> same_outcome (m w1) (m w2).

End Generator.

Arguments world : clear implicits.
Arguments M : clear implicits.

(** A concrete pseudo-random source for running the model: the state is a
    counter and the [n]-th standard-normal deviate is [z n]. *)
Definition counter_rng (z : nat -> R) : Type := nat.

#[export] Instance counter_random (z : nat -> R) : NumpyRandom (counter_rng z).
Proof.
  refine {|
    seed_state n := Z.abs_nat n : counter_rng z;
    standard_normal g := (z g, S g);
    randint_draw lo hi g := ((lo + Z.of_nat g mod (hi - lo))%Z, S g);
    random_interval n g := ((g mod (S n))%nat, S g)
  |}.
  - intros lo hi g Hlt. simpl.
    pose proof (Z.mod_pos_bound (Z.of_nat g) (hi - lo)). lia.
  - intros n g. simpl. pose proof (Nat.mod_upper_bound g (S n)). lia.
Defined.

Definition world0 (z : nat -> R) : world (counter_rng z) :=
  mk_world (rng := counter_rng z) 0%nat "2024-01-03T12:00:00" [].

(** Two streams of deviates: every deviate 0, and deviates that alternate
    between 2 and -2. *)
Definition calm_stream : nat -> R := fun _ => 0%R.

Definition swing_stream : nat -> R :=
  fun i => if Nat.even i then 2%R else (-2)%R.

(** A generator with one subcarrier. *)
Definition small_generator : SyntheticCSIGenerator := mk_generator 1 100.

End Synth.

(* ================================================================== *)
(** * NumPy's legacy Gaussian source *)
(* ================================================================== *)

(** [np.random.normal] of the legacy [RandomState] takes its deviates from
    [legacy_gauss], the polar method: two uniform doubles [u1], [u2] of
    [[0, 1)], each a multiple of [2^-53], give [x1 = 2 u1 - 1] and
    [x2 = 2 u2 - 1]; the pair is drawn again while
    [r2 = x1^2 + x2^2] is [0] or [>= 1]; an accepted pair yields the two
    deviates [f * x1] and [f * x2] with [f = sqrt(-2 ln(r2) / r2)]. *)
Definition uniform_double (k : Z) : R := (IZR k / 2 ^ 53)%R.

Definition polar_accepted (x1 x2 : R) : Prop :=
  (x1 * x1 + x2 * x2 <> 0 /\ x1 * x1 + x2 * x2 < 1)%R.

Definition polar_gauss (x1 x2 : R) : R :=
  let r2 := (x1 * x1 + x2 * x2)%R in
  (sqrt (-2 * ln r2 / r2) * x2)%R.

(** The largest deviate the polar method can return: the smallest accepted
    [r2] is [2^-104]. *)
Definition gauss_bound : R := sqrt (2 * (104 * ln 2)).

(** A pseudo-random source whose standard-normal deviates come from the
    polar method. *)
Class LegacyGauss (rng : Type) `{NumpyRandom rng} : Prop := {
  standard_normal_bound :
    forall g : rng, (Rabs (fst (standard_normal g)) <= gauss_bound)%R
}.

Arguments LegacyGauss rng {_}.


(* ================================================================== *)
(** * Specification-level definitions *)
(* ================================================================== *)

(** The definitions of this part follow the words of the specification;
    the theorems below compare them with what the code computes. *)

(** Section 4.1: right-pad with zeros to length [n] when shorter, keep the
    first [n] entries when longer. *)
Definition pad_or_truncate (n : nat) (v : vec) : vec :=
  firstn n v ++ repeat 0%R (n - length v).

(** The phase of a sample, "absent => all-zero, same length as amplitude". *)
Definition phase_or_zero (s : sample) (amp : vec) : vec :=
  match s_phase s with
  | Some ph => ph
  | None => repeat 0%R (length amp)
  end.

(** Section 4.1: [z-scored amplitude (S) ++ phase / pi (S)]. *)
Definition normalized (n : nat) (s : sample) : vec :=
  match s_amp s with
  | Some amp =>
      Train.zscore (pad_or_truncate n amp) ++
      Train.scale_phase (pad_or_truncate n (phase_or_zero s amp))
  | None => []
  end.

(** Section 4.3, step 4: the stride-1 windows of length [w] over a
    sequence, [max(0, N - w + 1)] of them. *)
Definition sliding (w : nat) (rows : list vec) : list (list vec) :=
  map (fun i => firstn w (skipn i rows)) (seq 0 (length rows + 1 - w)).

(** The samples the input pairs with a given label, in arrival order. *)
Definition with_label (l : string) (pairs : list (sample * string)) : list sample :=
  map fst (filter (fun p => String.eqb (snd p) l) pairs).

(** [parse_sample] succeeds on [s] with the specification's vector. *)
Definition parses (self : Train.CSIDataPreprocessor) (s : sample) : Prop :=
  (exists amp, s_amp s = Some amp) /\
  Train.parse_sample self s =
  Ok (normalized (Z.to_nat (Train.num_subcarriers self)) s).

(** The distinct labels of a sequence in order of first occurrence: the
    iteration order of the insertion-ordered dictionary [by_label]. *)
Definition distinct_labels (ls : list string) : list string :=
  fold_left (fun acc l => if existsb (String.eqb l) acc then acc else acc ++ [l])
            ls [].

(** Section 4.3, steps 3 and 4 for the group of label [k]: its normalised
    vectors in arrival order, and the windows slid over them. *)
Definition group_vectors (n : nat) (pairs : list (sample * string)) (k : string)
  : list vec :=
  map (normalized n) (with_label k pairs).

Definition group_tensor (n w : nat) (pairs : list (sample * string)) (k : string)
  : list array2 :=
  map (mk_array2 (2 * n)) (sliding w (group_vectors n pairs k)).

(** The default configuration of the preprocessor, [window_size = 50] and
    [num_subcarriers = 52], and the one of the end-to-end example. *)
Definition default_preprocessor : Train.CSIDataPreprocessor :=
  Train.mk_preprocessor 50 52 104.

Definition example_preprocessor : Train.CSIDataPreprocessor :=
  Train.mk_preprocessor 10 52 104.

(** A record with only an amplitude and a phase. *)
Definition raw_sample (amp : vec) (phase : option vec) : sample :=
  mk_sample None None None (Some amp) phase None None.

(** Example inputs. *)

(** A record whose amplitude array is empty. *)
Definition empty_amplitude_sample : sample := raw_sample [] None.

(** Twelve records with 52 subcarriers each, for the end-to-end example. *)
Definition twelve_samples : list sample :=
  repeat (raw_sample (repeat 1%R 52) None) 12.

(** A record that breaks the data-model invariant: one amplitude entry,
    three phase entries. *)
Definition long_phase_sample : sample :=
  raw_sample [1%R] (Some [0%R; 0%R; 0%R]).

(** A record whose phase is shorter than its amplitude. *)
Definition short_phase_sample : sample :=
  raw_sample [1%R; 2%R; 3%R] (Some [0%R]).

(* ================================================================== *)
(** * Further Python and NumPy primitives *)
(* ================================================================== *)

Module PyMore.

(** [l[lo:]] *)
Definition py_slice_from {A} (l : list A) (lo : Z) : list A :=
  skipn (slice_bound (length l) lo) l.

(** [int(x)] on a float: truncation toward zero. *)
Definition py_int (x : R) : Z :=
  if Rle_dec 0 x then Int_part x else (- Int_part (- x))%Z.

Fixpoint insert_Z (x : Z) (l : list Z) : list Z :=
  match l with
  | [] => [x]
  | y :: ys => if (x <=? y)%Z then x :: l else y :: insert_Z x ys
  end.

(** [np.unique(y)]: the distinct values, sorted. *)
Definition np_unique (y : list Z) : list Z :=
  fold_right insert_Z [] (nodup Z.eq_dec y).

(** A dictionary in insertion order, given by its items. *)
Section Dict.

Context {K V : Type} (eqb : K -> K -> bool).

(** [d.get(k)] *)
Fixpoint dict_lookup (d : list (K * V)) (k : K) : option V :=
  match d with
  | [] => None
  | (k', v) :: d' => if eqb k k' then Some v else dict_lookup d' k
  end.

(** [d[k] = v]: an existing key keeps its place, a new one goes last. *)
Fixpoint dict_set (d : list (K * V)) (k : K) (v : V) : list (K * V) :=
  match d with
  | [] => [(k, v)]
  | (k', v') :: d' =>
      if eqb k k' then (k', v) :: d' else (k', v') :: dict_set d' k v
  end.

End Dict.

(** [sorted(d.items())] for a dictionary with string keys: the keys are
    distinct, so the items are ordered by key alone. *)
Fixpoint insert_item {V} (kv : string * V) (l : list (string * V))
  : list (string * V) :=
  match l with
  | [] => [kv]
  | x :: r =>
      if String.leb (fst kv) (fst x) then kv :: l else x :: insert_item kv r
  end.

Definition sorted_items {V} (d : list (string * V)) : list (string * V) :=
  fold_right insert_item [] d.

End PyMore.

Import PyMore.

(* ================================================================== *)
(** * Double-precision arithmetic *)
(* ================================================================== *)

(** Arrays are modelled over the reals.  Where the program turns a float
    into an integer the rounding of the float operation matters, and it is
    made explicit: [fl_round] takes the exact result of an operation to the
    double that the operation returns.  Rounding to nearest is monotone and
    leaves every integer up to [2^53] as it is (results are taken to be
    finite). *)
Class Float64 : Type := {
  fl_round : R -> R;
  fl_round_monotone : forall x y : R, (x <= y)%R -> (fl_round x <= fl_round y)%R;
  fl_round_integer :
    forall n : Z, (Z.abs n <= 2 ^ 53)%Z -> fl_round (IZR n) = IZR n
}.

(** [x * y] on floats. *)
Definition fl_mul {F : Float64} (x y : R) : R := fl_round (x * y).

(** Arithmetic without rounding error, for running the model on operands
    whose product is a double. *)
#[export] Instance exact_arithmetic : Float64.
Proof.
  refine {| fl_round x := x |}.
  - intros x y Hxy. exact Hxy.
  - intros n _. reflexivity.
Defined.

(* ================================================================== *)
(** * models/training/train_pose_model.py : load_dataset and main *)
(* ================================================================== *)

Module Pipeline.

Import Train.
Local Open Scope Z_scope.

(** The selection loop of [load_dataset]: a record is kept, with its
    label, when it has both the keys [label] and [amp]. *)
Definition select_labelled (data : list sample) : list sample * list string :=
  fold_left
    (fun (acc : list sample * list string) s =>
       match s_label s, s_amp s with
       | Some l, Some _ => (fst acc ++ [s], snd acc ++ [l])
       | _, _ => acc
       end)
    data ([], []).

(** [load_dataset], from the parsed [dataset['data']] on (reading and
    decoding the file, and the progress lines, are left out). *)
Definition load_dataset (self : CSIDataPreprocessor) (data : list sample)
  : result (list array2 * list Z) :=
  let (samples, labels) := select_labelled data in
  create_windows self samples labels.

Record training_data : Type := mk_training_data {
  X_train : list array2;
  X_val : list array2;
  y_train : list Z;
  y_val : list Z;
  num_classes : Z
}.

Inductive main_outcome : Type :=
| Raised (e : py_error)
| SysExit (code : Z)
| Ready (d : training_data).

(** [main], from the construction of the preprocessor to the call of
    [train_model]: load, stop with status 1 when there is no window, split
    at [int(len(X) * train_split)], a float product, count the classes. *)
Definition main_prepare {F : Float64} (window_size num_subcarriers : Z)
           (train_split : R) (data : list sample) : main_outcome :=
  match init window_size num_subcarriers with
  | Raise e => Raised e
  | Ok preprocessor =>
      match load_dataset preprocessor data with
      | Raise e => Raised e
      | Ok (X, y) =>
          if py_len X =? 0 then SysExit 1
          else
            let split_idx := py_int (fl_mul (IZR (py_len X)) train_split) in
            Ready (mk_training_data
                     (py_slice_to X split_idx) (py_slice_from X split_idx)
                     (py_slice_to y split_idx) (py_slice_from y split_idx)
                     (py_len (np_unique y)))
      end
  end.

(** The records [load_dataset] keeps, and the label of a kept record. *)
Definition kept (s : sample) : bool :=
  match s_label s, s_amp s with
  | Some _, Some _ => true
  | _, _ => false
  end.

Definition label_of (s : sample) : string :=
  match s_label s with Some l => l | None => EmptyString end.

Definition is_value_error (e : py_error) : Prop := exists msg, e = ValueError msg.

(** Example inputs: a labelled record, and a labelled record whose phase
    is longer than its amplitude. *)
Definition labelled_sample (l : string) (amp : vec) (phase : option vec) : sample :=
  mk_sample None None None (Some amp) phase (Some l) None.

Definition long_phase_labelled : sample :=
  labelled_sample "sitting" [1%R] (Some [0%R; 0%R; 0%R]).

End Pipeline.

(* ================================================================== *)
(** * tools/analyze_csi.py : the reports over a dataset *)
(* ================================================================== *)

(** The two reporting methods [analyze_by_label] and
    [compute_temporal_features] print what they compute; the model returns
    the printed values (number formatting is left out). *)
Module Report.

Import Analyze.
Local Open Scope res_scope.

(** [sample.get('label', 'unknown')] *)
Definition label_or_unknown (s : sample) : string :=
  match s_label s with
  | Some l => l
  | None => "unknown"%string
  end.

(** [if k not in d: d[k] = []] followed by [d[k].append(v)], on a
    dictionary in insertion order. *)
Fixpoint dict_append {V} (d : list (string * list V)) (k : string) (v : V)
  : list (string * list V) :=
  match d with
  | [] => [(k, [v])]
  | (k', vs) :: rest =>
      if String.eqb k k' then (k', vs ++ [v]) :: rest
      else (k', vs) :: dict_append rest k v
  end.

(** The grouping loop of [analyze_by_label]. *)
Definition group_samples (data : list sample) : list (string * list sample) :=
  fold_left (fun acc s => dict_append acc (label_or_unknown s) s) data [].

(** One block of the report of [analyze_by_label]: the label, the number
    of samples, and mean and spread of three statistics, and the mean rssi. *)
Record label_summary : Type := mk_label_summary {
  ls_label : string;
  ls_count : Z;
  ls_amp_mean : R * R;
  ls_amp_std : R * R;
  ls_phase_std : R * R;
  ls_rssi : R
}.

Definition summarize (item : string * list sample) : result label_summary :=
  let (label, samples) := item in
  features_list <- map_result compute_features samples ;;
  let amp_means := map amp_mean features_list in
  let amp_stds := map amp_std features_list in
  let phase_stds := map phase_std features_list in
  Ok (mk_label_summary label (py_len samples)
        (np_mean amp_means, np_std amp_means 0)
        (np_mean amp_stds, np_std amp_stds 0)
        (np_mean phase_stds, np_std phase_stds 0)
        (np_mean (map rssi features_list))).

Definition analyze_by_label (data : list sample) : result (list label_summary) :=
  map_result summarize (sorted_items (group_samples data)).

(** The grouping loop of [compute_temporal_features]: the statistics of
    every sample are computed while grouping. *)
Definition group_features (data : list sample)
  : result (list (string * list features)) :=
  fold_left
    (fun acc s =>
       groups <- acc ;;
       f <- compute_features s ;;
       Ok (dict_append groups (label_or_unknown s) f))
    data (Ok []).

(** One block of the temporal report: a label with too few samples, or the
    two per-window sequences, their means and the stability verdict. *)
Inductive temporal_row : Type :=
| NotEnough (label : string)
| Temporal (label : string) (amp_std_variance phase_std_variance : list R)
           (amp_mean_variance phase_mean_variance : R) (stable : bool).

Definition temporal_sequences (window_size : Z) (features_list : list features)
  : list R * list R :=
  let windows :=
    map (fun i => py_slice features_list i (i + window_size))
        (py_range (py_len features_list - window_size + 1)) in
  (map (fun window => np_std (map amp_std window) 0) windows,
   map (fun window => np_std (map phase_std window) 0) windows).

Definition temporal_row_of (window_size : Z) (item : string * list features)
  : temporal_row :=
  let (label, features_list) := item in
  if (py_len features_list <? window_size)%Z then NotEnough label
  else
    let (amp_std_variance, phase_std_variance) :=
      temporal_sequences window_size features_list in
    Temporal label amp_std_variance phase_std_variance
             (np_mean amp_std_variance) (np_mean phase_std_variance)
             (if Rlt_dec (np_mean amp_std_variance) 5.0 then true else false).

Definition compute_temporal_features (data : list sample) (window_size : Z)
  : result (list temporal_row) :=
  groups <- group_features data ;;
  Ok (map (temporal_row_of window_size) (sorted_items groups)).

(** What the reports need of a record: an amplitude with at least one
    entry. *)
Definition has_amplitude (s : sample) : Prop :=
  exists a amp, s_amp s = Some (a :: amp).

(** The records of a dataset that fall under a label, and their number. *)
Definition labelled_as (l : string) (s : sample) : bool :=
  String.eqb (label_or_unknown s) l.

Definition records_of (l : string) (data : list sample) : list sample :=
  filter (labelled_as l) data.

(** The labels of a dataset, each once, in order of first occurrence. *)
Definition labels_of (data : list sample) : list string :=
  distinct_labels (map label_or_unknown data).

(** Grouping a sequence of keyed values with [dict_append], and the values
    that arrive under one key. *)
Definition group_pairs {V} (pairs : list (string * V)) : list (string * list V) :=
  fold_left (fun acc p => dict_append acc (fst p) (snd p)) pairs [].

Definition under_key {V} (k : string) (pairs : list (string * V)) : list V :=
  map snd (filter (fun p => String.eqb (fst p) k) pairs).

(** Ascending order of a list of strings, as [sorted] leaves the keys. *)
Fixpoint ascending (ks : list string) : bool :=
  match ks with
  | [] => true
  | k :: rest => forallb (String.leb k) rest && ascending rest
  end.

(** The exceptions a record without a usable amplitude causes. *)
Definition amplitude_error (e : py_error) : Prop :=
  e = KeyError "amp" \/ exists msg, e = ValueError msg.


(** Example datasets: three records under two labels, one of them without
    label; and three records of one label with the same amplitude. *)
Definition report_data : list sample :=
  [ Pipeline.labelled_sample "walking" [1%R; 3%R] None;
    raw_sample [2%R] None;
    Pipeline.labelled_sample "walking" [5%R] None ].

Definition steady_data : list sample :=
  repeat (Pipeline.labelled_sample "empty" [4%R; 6%R] None) 3.

End Report.

(* ================================================================== *)
(** * Specification-level definitions for the whole pipeline *)
(* ================================================================== *)




(* ================================================================== *)
(** * Facts about the Python primitives *)
(* ================================================================== *)

Unset Implicit Arguments.

Section PyFacts.

Local Open Scope Z_scope.

Lemma slice_bound_nonneg (n : nat) (k : Z) :
  0 <= k -> slice_bound n k = Nat.min (Z.to_nat k) n.
Proof.
  intros Hk. unfold slice_bound.
  destruct (k <? 0) eqn:E; [apply Z.ltb_lt in E; lia | reflexivity].
Qed.

Lemma py_slice_to_nonneg {A} (l : list A) (k : Z) :
  0 <= k -> py_slice_to l k = firstn (Z.to_nat k) l.
Proof.
  intros Hk. unfold py_slice_to. rewrite slice_bound_nonneg by assumption.
  destruct (Nat.le_gt_cases (Z.to_nat k) (length l)) as [Hle | Hgt].
  - now rewrite Nat.min_l.
  - rewrite Nat.min_r by lia. rewrite !firstn_all2; auto; lia.
Qed.

(** A slice [l[i:i+w]] that starts inside the sequence. *)
Lemma py_slice_window {A} (l : list A) (i : nat) (w : Z) :
  0 <= w -> (i <= length l)%nat ->
  py_slice l (Z.of_nat i) (Z.of_nat i + w) = firstn (Z.to_nat w) (skipn i l).
Proof.
  intros Hw Hi. unfold py_slice.
  rewrite !slice_bound_nonneg by lia.
  rewrite Nat2Z.id, (Nat.min_l i) by lia.
  destruct (Nat.le_gt_cases (Z.to_nat (Z.of_nat i + w)) (length l)) as [Hle | Hgt].
  - rewrite Nat.min_l by lia. f_equal. lia.
  - rewrite Nat.min_r by lia.
    rewrite !firstn_all2; auto; rewrite length_skipn; lia.
Qed.

(** Python's slice conventions on a short list. *)
Example py_slice_to_negative : py_slice_to [1; 2; 3] (-1) = [1; 2].
Proof. reflexivity. Qed.

Example py_slice_to_beyond : py_slice_to [1; 2; 3] 5 = [1; 2; 3].
Proof. reflexivity. Qed.

Example py_slice_empty : py_slice [1; 2; 3] 1 0 = [].
Proof. reflexivity. Qed.

Example py_slice_past_end : py_slice [1; 2; 3] 2 4 = [3].
Proof. reflexivity. Qed.

Example py_range_negative : py_range (-2) = [].
Proof. reflexivity. Qed.

Lemma firstn_in {A} (k : nat) (l : list A) (x : A) :
  In x (firstn k l) -> In x l.
Proof.
  intros Hin. rewrite <- (firstn_skipn k l). apply in_or_app. now left.
Qed.

Lemma skipn_in {A} (k : nat) (l : list A) (x : A) :
  In x (skipn k l) -> In x l.
Proof.
  intros Hin. rewrite <- (firstn_skipn k l). apply in_or_app. now right.
Qed.

Lemma py_range_length (n : Z) : length (py_range n) = Z.to_nat n.
Proof. unfold py_range. now rewrite length_map, length_seq. Qed.

Lemma np_pad_right_ok (v : vec) (n : Z) :
  0 <= n -> np_pad_right v n = Ok (v ++ repeat 0%R (Z.to_nat n)).
Proof.
  intros Hn. unfold np_pad_right.
  destruct (n <? 0) eqn:E; [apply Z.ltb_lt in E; lia | reflexivity].
Qed.

Lemma np_pad_right_neg (v : vec) (n : Z) :
  n < 0 -> np_pad_right v n = Raise (ValueError "index can't contain negative values").
Proof.
  intros Hn. unfold np_pad_right.
  destruct (n <? 0) eqn:E; [reflexivity | apply Z.ltb_ge in E; lia].
Qed.

Lemma pad_or_truncate_length (n : nat) (v : vec) :
  length (pad_or_truncate n v) = n.
Proof.
  unfold pad_or_truncate.
  rewrite length_app, length_firstn, repeat_length. lia.
Qed.

Lemma np_sum_zeros (n : nat) : np_sum (repeat 0%R n) = 0%R.
Proof. induction n as [|n IH]; simpl; [reflexivity | rewrite IH; lra]. Qed.

Lemma map_repeat {A B} (f : A -> B) (a : A) (n : nat) :
  map f (repeat a n) = repeat (f a) n.
Proof. induction n as [|n IH]; simpl; [reflexivity | now rewrite IH]. Qed.

End PyFacts.

(* ================================================================== *)
(** * The sample normaliser, [parse_sample] *)
(* ================================================================== *)

Section ParseSample.

Import Train.
Local Open Scope Z_scope.

Lemma zscore_length (v : vec) : length (zscore v) = length v.
Proof. unfold zscore. apply length_map. Qed.

Lemma scale_phase_length (v : vec) : length (scale_phase v) = length v.
Proof. unfold scale_phase. apply length_map. Qed.

(** Both arrays as long as each other: the code's pad/truncate step is the
    specification's, on both. *)
Lemma resize_pair_same_length (S : Z) (amp phase : vec) :
  0 <= S -> length phase = length amp ->
  resize_pair S amp phase =
  Ok (pad_or_truncate (Z.to_nat S) amp, pad_or_truncate (Z.to_nat S) phase).
Proof.
  intros HS Hlen. unfold resize_pair, pad_or_truncate, py_len.
  rewrite Hlen.
  destruct (Z.of_nat (length amp) <? S) eqn:E.
  - apply Z.ltb_lt in E.
    rewrite !np_pad_right_ok by lia. simpl.
    rewrite !firstn_all2 by lia.
    replace (Z.to_nat (S - Z.of_nat (length amp)))
      with (Z.to_nat S - length amp)%nat by lia.
    reflexivity.
  - apply Z.ltb_ge in E.
    rewrite !py_slice_to_nonneg by assumption.
    replace (Z.to_nat S - length amp)%nat with 0%nat by lia.
    simpl. now rewrite !app_nil_r.
Qed.

(** The truncating branch, whatever the phase length. *)
Lemma resize_pair_truncate (S : Z) (amp phase : vec) :
  0 <= S -> S <= py_len amp ->
  resize_pair S amp phase =
  Ok (firstn (Z.to_nat S) amp, firstn (Z.to_nat S) phase).
Proof.
  intros HS Hle. unfold resize_pair.
  destruct (py_len amp <? S) eqn:E; [apply Z.ltb_lt in E; lia |].
  now rewrite !py_slice_to_nonneg.
Qed.

(** The padding branch: a phase longer than [S] makes [np.pad] raise. *)
Lemma resize_pair_pad (S : Z) (amp phase : vec) :
  py_len amp < S ->
  resize_pair S amp phase =
  if py_len phase <=? S
  then Ok (amp ++ repeat 0%R (Z.to_nat (S - py_len amp)),
           phase ++ repeat 0%R (Z.to_nat (S - py_len phase)))
  else Raise (ValueError "index can't contain negative values").
Proof.
  intros Hlt. unfold resize_pair.
  destruct (py_len amp <? S) eqn:E; [| apply Z.ltb_ge in E; lia].
  unfold py_len in *. rewrite np_pad_right_ok by lia. simpl.
  destruct (Z.of_nat (length phase) <=? S) eqn:E2.
  - apply Z.leb_le in E2. now rewrite np_pad_right_ok by lia.
  - apply Z.leb_gt in E2. now rewrite np_pad_right_neg by lia.
Qed.

Lemma phase_or_zero_length (s : sample) (amp : vec) :
  s_amp s = Some amp -> well_formed s -> length (phase_or_zero s amp) = length amp.
Proof.
  intros Hamp [amp' [Hamp' Hph]]. rewrite Hamp in Hamp'. injection Hamp' as <-.
  unfold phase_or_zero. destruct (s_phase s); [assumption | apply repeat_length].
Qed.

(** On a well-formed sample the code computes the specification's vector. *)
Lemma parse_sample_normalized (self : CSIDataPreprocessor) (s : sample) :
  0 <= num_subcarriers self -> well_formed s ->
  parse_sample self s = Ok (normalized (Z.to_nat (num_subcarriers self)) s).
Proof.
  intros HS Hwf. pose proof Hwf as [amp [Hamp _]].
  pose proof (phase_or_zero_length s amp Hamp Hwf) as Hlen.
  unfold parse_sample, normalized. rewrite Hamp.
  fold (phase_or_zero s amp).
  now rewrite (resize_pair_same_length _ _ _ HS Hlen).
Qed.

Lemma normalized_length (n : nat) (s : sample) (amp : vec) :
  s_amp s = Some amp -> length (normalized n s) = (2 * n)%nat.
Proof.
  intros Hamp. unfold normalized. rewrite Hamp.
  rewrite length_app, zscore_length, scale_phase_length, !pad_or_truncate_length.
  lia.
Qed.

(** C2. For every sample with a non-empty amplitude whose phase, when
    present, is as long as the amplitude, and every subcarrier count
    [S >= 0], [parse_sample] returns a vector of length exactly [2 * S]:
    amplitude and phase are each zero-padded on the right to length [S]
    when shorter and cut to their first [S] entries when longer; the first
    [S] entries of the result are the resized amplitude z-scored, each
    entry [x] becoming [(x - mu) / (sigma + 1e-6)] with [mu] the mean and
    [sigma] the population standard deviation of the resized amplitude,
    and the last [S] entries are the resized phase divided by pi. *)
Theorem parse_sample_fixed_length
  (self : CSIDataPreprocessor) (s : sample) (amp : vec) :
  0 <= num_subcarriers self ->
  s_amp s = Some amp -> amp <> [] ->
  match s_phase s with Some ph => length ph = length amp | None => True end ->
  let n := Z.to_nat (num_subcarriers self) in
  let amp' := pad_or_truncate n amp in
  let phase' := pad_or_truncate n (phase_or_zero s amp) in
  let mu := (fold_right Rplus 0 amp' / INR n)%R in
  let sigma :=
    sqrt (fold_right Rplus 0 (map (fun x => (x - mu) * (x - mu)) amp') / INR n)%R in
  let v := (map (fun x => (x - mu) / (sigma + 1e-6)) amp' ++
            map (fun p => p / PI) phase')%R in
  parse_sample self s = Ok v /\
  length amp' = n /\ length phase' = n /\
  py_len v = 2 * num_subcarriers self /\
  (forall i, (i < n)%nat ->
     nth i v 0%R = ((nth i amp' 0 - mu) / (sigma + 1e-6))%R /\
     nth (n + i) v 0%R = (nth i phase' 0 / PI)%R) /\
  (length amp <= n -> amp' = amp ++ repeat 0%R (n - length amp))%nat /\
  (n <= length amp -> amp' = firstn n amp)%nat /\
  (length (phase_or_zero s amp) <= n ->
   phase' = phase_or_zero s amp ++ repeat 0%R (n - length (phase_or_zero s amp)))%nat /\
  (n <= length (phase_or_zero s amp) -> phase' = firstn n (phase_or_zero s amp))%nat.
Proof.
  intros HS Hamp _ Hph n amp' phase' mu sigma v.
  assert (Hwf : well_formed s) by (exists amp; split; assumption).
  assert (Hlena : length amp' = n) by apply pad_or_truncate_length.
  assert (Hlenp : length phase' = n) by apply pad_or_truncate_length.
  split.
  { rewrite (parse_sample_normalized self s HS Hwf).
    unfold normalized. rewrite Hamp.
    fold amp' phase'. subst v. f_equal. f_equal.
    unfold zscore, np_std, np_var, np_mean, np_sum, eps.
    rewrite Nat.sub_0_r, !pad_or_truncate_length. reflexivity. }
  split; [exact Hlena |]. split; [exact Hlenp |].
  split.
  { unfold py_len. subst v. rewrite length_app, !length_map, Hlena, Hlenp. lia. }
  split.
  { intros i Hi. subst v. split.
    - rewrite app_nth1 by (rewrite length_map; lia).
      rewrite (nth_indep _ 0%R ((0 - mu) / (sigma + 1e-6))%R)
        by (rewrite length_map; lia).
      apply (map_nth (fun x => ((x - mu) / (sigma + 1e-6))%R)).
    - rewrite app_nth2 by (rewrite length_map; lia).
      rewrite length_map, Hlena.
      replace (n + i - n)%nat with i by lia.
      rewrite (nth_indep _ 0%R (0 / PI)%R) by (rewrite length_map; lia).
      apply (map_nth (fun p => (p / PI)%R)). }
  subst amp' phase'. unfold pad_or_truncate.
  repeat split; intros Hle.
  - now rewrite firstn_all2.
  - replace (n - length amp)%nat with 0%nat by lia. simpl. apply app_nil_r.
  - now rewrite firstn_all2.
  - replace (n - length (phase_or_zero s amp))%nat with 0%nat by lia.
    simpl. apply app_nil_r.
Qed.

(** C10. The branch is chosen by the amplitude length alone.  When the
    amplitude has at least [S] entries and a present phase has fewer than
    [S], the returned vector has length [S + len(phase)], which is not
    [2 * S].  That is the only way to get another length: the vector has
    length [2 * S] when the phase is absent, when amplitude and phase both
    have at least [S] entries, and when the amplitude has fewer than [S]
    and the phase at most [S] entries, whether or not the two lengths are
    equal; and when the amplitude has fewer than [S] and the phase more
    than [S] entries, [np.pad] raises [ValueError]. *)
Theorem parse_sample_short_phase
  (self : CSIDataPreprocessor) (s : sample) (amp ph : vec) :
  0 <= num_subcarriers self ->
  s_amp s = Some amp ->
  (s_phase s = None ->
   exists v, parse_sample self s = Ok v /\ py_len v = 2 * num_subcarriers self) /\
  (s_phase s = Some ph ->
   (num_subcarriers self <= py_len amp -> py_len ph < num_subcarriers self ->
    exists v, parse_sample self s = Ok v /\
              py_len v = num_subcarriers self + py_len ph /\
              py_len v <> 2 * num_subcarriers self) /\
   (num_subcarriers self <= py_len amp -> num_subcarriers self <= py_len ph ->
    exists v, parse_sample self s = Ok v /\ py_len v = 2 * num_subcarriers self) /\
   (py_len amp < num_subcarriers self -> py_len ph <= num_subcarriers self ->
    exists v, parse_sample self s = Ok v /\ py_len v = 2 * num_subcarriers self) /\
   (py_len amp < num_subcarriers self -> num_subcarriers self < py_len ph ->
    exists msg, parse_sample self s = Raise (ValueError msg))).
Proof.
  intros HS Hamp. split.
  - intros Hph.
    assert (Hwf : well_formed s).
    { exists amp. split; [assumption |]. now rewrite Hph. }
    exists (normalized (Z.to_nat (num_subcarriers self)) s). split.
    + apply parse_sample_normalized; assumption.
    + unfold py_len. rewrite (normalized_length _ s amp Hamp). lia.
  - intros Hph. unfold parse_sample. rewrite Hamp, Hph.
    split; [| split; [| split]].
    + intros Hle Hlt.
      rewrite (resize_pair_truncate _ _ _ HS Hle). unfold res_bind.
      eexists. split; [reflexivity |].
      unfold py_len in *.
      rewrite length_app, zscore_length, scale_phase_length, !length_firstn.
      lia.
    + intros Hle Hle'.
      rewrite (resize_pair_truncate _ _ _ HS Hle). unfold res_bind.
      eexists. split; [reflexivity |].
      unfold py_len in *.
      rewrite length_app, zscore_length, scale_phase_length, !length_firstn.
      lia.
    + intros Hlt Hle.
      rewrite (resize_pair_pad _ _ _ Hlt).
      apply Z.leb_le in Hle. rewrite Hle. unfold res_bind.
      eexists. split; [reflexivity |].
      apply Z.leb_le in Hle. unfold py_len in *.
      rewrite length_app, zscore_length, scale_phase_length, !length_app,
        !repeat_length.
      lia.
    + intros Hlt Hgt.
      rewrite (resize_pair_pad _ _ _ Hlt).
      destruct (py_len ph <=? num_subcarriers self) eqn:E;
        [apply Z.leb_le in E; lia |].
      unfold res_bind. eexists. reflexivity.
Qed.

End ParseSample.

(* ================================================================== *)
(** * Grouping by label *)
(* ================================================================== *)

Section Grouping.

Import Train.

Lemma existsb_eqb_in (l : string) (acc : list string) :
  existsb (String.eqb l) acc = true <-> In l acc.
Proof.
  rewrite existsb_exists. split.
  - intros [x [Hin Heq]]. apply String.eqb_eq in Heq. now subst.
  - intros Hin. exists l. split; [assumption | apply String.eqb_refl].
Qed.

Lemma existsb_eqb_not_in (l : string) (acc : list string) :
  existsb (String.eqb l) acc = false <-> ~ In l acc.
Proof.
  rewrite <- existsb_eqb_in. destruct (existsb (String.eqb l) acc); intuition congruence.
Qed.

Lemma fold_left_snoc {A B} (f : A -> B -> A) (l : list B) (x : B) (a : A) :
  fold_left f (l ++ [x]) a = f (fold_left f l a) x.
Proof. now rewrite fold_left_app. Qed.

Lemma distinct_labels_snoc (ls : list string) (l : string) :
  distinct_labels (ls ++ [l]) =
  if existsb (String.eqb l) (distinct_labels ls)
  then distinct_labels ls else distinct_labels ls ++ [l].
Proof. unfold distinct_labels. now rewrite fold_left_snoc. Qed.

Lemma distinct_labels_in (ls : list string) (k : string) :
  In k (distinct_labels ls) <-> In k ls.
Proof.
  induction ls as [| l ls IH] using rev_ind; [reflexivity |].
  rewrite distinct_labels_snoc, in_app_iff. simpl.
  destruct (existsb (String.eqb l) (distinct_labels ls)) eqn:E.
  - apply existsb_eqb_in in E. rewrite IH. split; [tauto |].
    intros [Hin | [<- | []]]; [assumption | now apply IH].
  - rewrite in_app_iff, IH. simpl. tauto.
Qed.

Lemma distinct_labels_nodup (ls : list string) : NoDup (distinct_labels ls).
Proof.
  induction ls as [| l ls IH] using rev_ind; [constructor |].
  rewrite distinct_labels_snoc.
  destruct (existsb (String.eqb l) (distinct_labels ls)) eqn:E; [assumption |].
  apply existsb_eqb_not_in in E.
  apply NoDup_app; [assumption | repeat constructor; intros [] |].
  intros a Ha [<- | []]. contradiction.
Qed.

Lemma with_label_snoc (k : string) (ps : list (sample * string))
      (s : sample) (l : string) :
  with_label k (ps ++ [(s, l)]) =
  with_label k ps ++ (if String.eqb l k then [s] else []).
Proof.
  unfold with_label. rewrite filter_app, map_app. simpl.
  now destruct (String.eqb l k).
Qed.

Lemma with_label_nil (k : string) (ps : list (sample * string)) :
  ~ In k (map snd ps) -> with_label k ps = [].
Proof.
  induction ps as [| [s l] ps IH]; [reflexivity |].
  simpl. intros Hnot. unfold with_label in *. simpl.
  destruct (String.eqb l k) eqn:E.
  - apply String.eqb_eq in E. tauto.
  - apply IH. tauto.
Qed.

(** Every sample of a group was paired with the group's label. *)
Lemma with_label_in (k : string) (ps : list (sample * string)) (s : sample) :
  In s (with_label k ps) -> In (s, k) ps.
Proof.
  unfold with_label. rewrite in_map_iff.
  intros [[s' l] [Hfst Hin]]. simpl in Hfst. subst s'.
  apply filter_In in Hin. destruct Hin as [Hin Heq].
  simpl in Heq. apply String.eqb_eq in Heq. now subst.
Qed.

Lemma with_label_all (l : string) (samples : list sample) :
  with_label l (py_zip samples (repeat l (length samples))) = samples.
Proof.
  unfold with_label, py_zip.
  induction samples as [| s samples IH]; [reflexivity |].
  simpl. rewrite String.eqb_refl. simpl. now rewrite IH.
Qed.

(** One step of the grouping loop on a dictionary with distinct keys. *)
Lemma group_add_map (F : string -> list sample) (D : list string)
      (l : string) (s : sample) :
  NoDup D ->
  group_add (map (fun k => (k, F k)) D) l s =
  if existsb (String.eqb l) D
  then map (fun k => (k, if String.eqb l k then F k ++ [s] else F k)) D
  else map (fun k => (k, F k)) D ++ [(l, [s])].
Proof.
  induction D as [| k D IH]; intros Hnd; [reflexivity |].
  inversion Hnd as [| ? ? Hnotin Hnd']; subst.
  simpl. destruct (String.eqb l k) eqn:E.
  - simpl. f_equal. apply String.eqb_eq in E. subst k.
    apply map_ext_in. intros k' Hk'.
    destruct (String.eqb l k') eqn:E'; [| reflexivity].
    apply String.eqb_eq in E'. subst. contradiction.
  - simpl. rewrite (IH Hnd').
    now destruct (existsb (String.eqb l) D).
Qed.

(** The dictionary built by the grouping loop: one entry per distinct label,
    in order of first occurrence, holding that label's samples in arrival
    order. *)
Lemma group_by_label_grouped (samples : list sample) (labels : list string) :
  let pairs := py_zip samples labels in
  group_by_label samples labels =
  map (fun k => (k, with_label k pairs)) (distinct_labels (map snd pairs)).
Proof.
  unfold group_by_label. generalize (py_zip samples labels) as ps.
  induction ps as [| [s l] ps IH] using rev_ind; [reflexivity |].
  rewrite fold_left_snoc, IH. simpl.
  rewrite (group_add_map _ _ _ _ (distinct_labels_nodup _)).
  rewrite map_app. simpl. rewrite distinct_labels_snoc.
  destruct (existsb (String.eqb l) (distinct_labels (map snd ps))) eqn:E.
  - apply map_ext. intros k. rewrite with_label_snoc.
    destruct (String.eqb l k); [reflexivity | now rewrite app_nil_r].
  - apply existsb_eqb_not_in in E.
    rewrite map_app. simpl. f_equal.
    + apply map_ext_in. intros k Hk. rewrite with_label_snoc.
      destruct (String.eqb l k) eqn:E'; [| now rewrite app_nil_r].
      apply String.eqb_eq in E'. subst. contradiction.
    + rewrite with_label_snoc, String.eqb_refl.
      rewrite with_label_nil; [reflexivity |].
      now rewrite <- distinct_labels_in.
Qed.

End Grouping.

(* ================================================================== *)
(** * The windowing engine, [create_windows] *)
(* ================================================================== *)

Section Windows.

Import Train.
Local Open Scope Z_scope.

Variable self : CSIDataPreprocessor.

Local Abbreviation n := (Z.to_nat (num_subcarriers self)).
Local Abbreviation w := (Z.to_nat (window_size self)).

Lemma well_formed_parses (s : sample) :
  0 <= num_subcarriers self -> well_formed s -> parses self s.
Proof.
  intros HS Hwf. split.
  - destruct Hwf as [amp [Hamp _]]. now exists amp.
  - now apply parse_sample_normalized.
Qed.

(** With [S = 0] both arrays are cut to nothing, whatever their lengths. *)
Lemma zero_subcarriers_parses (s : sample) (amp : vec) :
  num_subcarriers self = 0 -> s_amp s = Some amp -> parses self s.
Proof.
  intros HS Hamp. split; [now exists amp |].
  unfold parse_sample, normalized. rewrite Hamp, HS.
  rewrite resize_pair_truncate by (unfold py_len; lia).
  reflexivity.
Qed.

Lemma map_result_ok {A B} (f : A -> result B) (g : A -> B) (l : list A) :
  Forall (fun a => f a = Ok (g a)) l -> map_result f l = Ok (map g l).
Proof.
  induction 1 as [| a l Ha _ IH]; [reflexivity |].
  simpl. now rewrite Ha, IH.
Qed.

Lemma np_array2_uniform (rows : list vec) (c : nat) :
  rows <> [] -> Forall (fun r => length r = c) rows ->
  np_array2 rows = Ok (mk_array2 c rows).
Proof.
  intros Hne Hall. destruct rows as [| r rows]; [contradiction |].
  unfold np_array2.
  assert (Hr : length r = c) by now inversion Hall.
  replace (forallb (fun r' => Nat.eqb (length r') (length r)) (r :: rows)) with true.
  - now rewrite Hr.
  - symmetry. apply forallb_forall. intros r' Hr'.
    rewrite Forall_forall in Hall. apply Nat.eqb_eq. rewrite (Hall r' Hr'). now symmetry.
Qed.

Lemma np_array3_uniform (X : list array2) (sh : nat * nat) :
  Forall (fun a => a2_shape a = sh) X -> np_array3 X = Ok X.
Proof.
  intros Hall. destruct X as [| a X]; [reflexivity |].
  unfold np_array3.
  replace (forallb (fun a' => shape_eqb (a2_shape a') (a2_shape a)) (a :: X)) with true;
    [reflexivity |].
  symmetry. apply forallb_forall. intros a' Ha'.
  rewrite Forall_forall in Hall.
  rewrite (Hall a' Ha'), (Hall a (or_introl eq_refl)).
  unfold shape_eqb. now rewrite !Nat.eqb_refl.
Qed.

Lemma sliding_length (k : nat) (rows : list vec) :
  length (sliding k rows) = (length rows + 1 - k)%nat.
Proof. unfold sliding. now rewrite length_map, length_seq. Qed.

(** A window holds exactly [k] consecutive rows of the sequence. *)
Lemma sliding_window (k : nat) (rows : list vec) (win : list vec) :
  In win (sliding k rows) -> length win = k /\ incl win rows.
Proof.
  unfold sliding. rewrite in_map_iff. intros [i [<- Hi]].
  apply in_seq in Hi. split.
  - rewrite length_firstn, length_skipn. lia.
  - intros r Hr. apply firstn_in in Hr. now apply skipn_in in Hr.
Qed.

Lemma windows_of_sliding (W : Z) (features : array2) :
  0 <= W ->
  windows_of W features =
  map (mk_array2 (a2_cols features)) (sliding (Z.to_nat W) (a2_rows features)).
Proof.
  intros HW. unfold windows_of, sliding, py_range, py_len.
  rewrite !map_map.
  replace (Z.to_nat (Z.of_nat (length (a2_rows features)) - W + 1))
    with (length (a2_rows features) + 1 - Z.to_nat W)%nat by lia.
  apply map_ext_in. intros i Hi. apply in_seq in Hi.
  unfold a2_slice. f_equal. apply py_slice_window; lia.
Qed.

Lemma map_const {A B} (b : B) (l : list A) :
  map (fun _ => b) l = repeat b (length l).
Proof. induction l as [| a l IH]; simpl; [reflexivity | now rewrite IH]. Qed.

(** The windows and class ids of one group. *)
Lemma group_windows_ok (k : string) (g : list sample) :
  0 <= window_size self -> (0 < window_size self \/ g <> []) ->
  Forall (parses self) g ->
  group_windows self k g =
  Ok (map (mk_array2 (2 * n)) (sliding w (map (normalized n) g)),
      repeat (label_id k) (length g + 1 - w)).
Proof.
  intros HW Hne Hall. unfold group_windows.
  rewrite (map_result_ok _ (normalized n)).
  2:{ eapply Forall_impl; [| exact Hall]. now intros s [_ Hs]. }
  unfold res_bind.
  destruct g as [| s g].
  - destruct Hne as [Hpos | Hne]; [| contradiction].
    simpl. rewrite windows_of_sliding by assumption.
    destruct w eqn:Ew; [lia | reflexivity].
  - rewrite (np_array2_uniform _ (2 * n)); [| discriminate |].
    2:{ apply Forall_forall. intros r Hr. apply in_map_iff in Hr.
        destruct Hr as [s' [<- Hs']].
        rewrite Forall_forall in Hall. destruct (Hall s' Hs') as [[amp Hamp] _].
        now apply normalized_length with amp. }
    rewrite windows_of_sliding by assumption. cbn [a2_cols a2_rows].
    f_equal. f_equal.
    now rewrite map_const, length_map, sliding_length, length_map.
Qed.

Lemma all_windows_grouped (G : string -> list sample)
      (WS : string -> list array2) (IDS : string -> list Z) (D : list string) :
  (forall k, In k D -> group_windows self k (G k) = Ok (WS k, IDS k)) ->
  forall X y,
  all_windows self (map (fun k => (k, G k)) D) X y =
  Ok (X ++ flat_map WS D, y ++ flat_map IDS D).
Proof.
  induction D as [| k D IH]; intros Hall X y; simpl.
  - now rewrite !app_nil_r.
  - rewrite (Hall k (or_introl eq_refl)). unfold res_bind.
    rewrite IH by (intros k' Hk'; apply Hall; now right).
    now rewrite !app_assoc.
Qed.

(** Every distinct label of the input has a non-empty group. *)
Lemma with_label_nonempty (k : string) (ps : list (sample * string)) :
  In k (map snd ps) -> with_label k ps <> [].
Proof.
  intros Hin. apply in_map_iff in Hin. destruct Hin as [[s l] [Hl Hin]].
  simpl in Hl. subst l.
  assert (In s (with_label k ps)) as Hs.
  { unfold with_label. apply in_map_iff. exists (s, k). split; [reflexivity |].
    apply filter_In. split; [assumption | apply String.eqb_refl]. }
  intros Hnil. now rewrite Hnil in Hs.
Qed.

(** What [create_windows] returns: for each distinct label, in order of
    first occurrence, the sliding windows over that label's normalised
    vectors, and one class id per window. *)
Lemma create_windows_grouped (samples : list sample) (labels : list string) :
  0 <= window_size self -> Forall (parses self) samples ->
  let pairs := py_zip samples labels in
  let D := distinct_labels (map snd pairs) in
  create_windows self samples labels =
  Ok (flat_map (group_tensor n w pairs) D,
      flat_map (fun k => repeat (label_id k) (length (with_label k pairs) + 1 - w)) D).
Proof.
  intros HW Hall pairs D. unfold create_windows.
  rewrite group_by_label_grouped. fold pairs. fold D.
  rewrite (all_windows_grouped (fun k => with_label k pairs)
             (group_tensor n w pairs)
             (fun k => repeat (label_id k) (length (with_label k pairs) + 1 - w))).
  - unfold res_bind. simpl.
    rewrite (np_array3_uniform _ (w, (2 * n)%nat)); [reflexivity |].
    apply Forall_forall. intros a Ha.
    apply in_flat_map in Ha. destruct Ha as [k [_ Ha]].
    unfold group_tensor in Ha. apply in_map_iff in Ha.
    destruct Ha as [win [<- Hwin]].
    apply sliding_window in Hwin. destruct Hwin as [Hlen _].
    unfold a2_shape. simpl. now rewrite Hlen.
  - intros k Hk. unfold group_tensor, group_vectors.
    apply group_windows_ok; [assumption | |].
    + right. apply with_label_nonempty. now apply distinct_labels_in.
    + apply Forall_forall. intros s Hs.
      apply with_label_in in Hs. apply in_combine_l in Hs.
      rewrite Forall_forall in Hall. now apply Hall.
Qed.

End Windows.

(* ================================================================== *)
(** * The class-id table *)
(* ================================================================== *)

Section LabelIds.

Import Train.
Local Open Scope Z_scope.
Local Open Scope string_scope.

Lemma dict_get_default {V} (d : list (string * V)) (key : string) (default : V) :
  ~ In key (map fst d) -> dict_get d key default = default.
Proof.
  induction d as [| [k v] d IH]; intros Hnot; [reflexivity |].
  simpl in *. destruct (String.eqb key k) eqn:E.
  - apply String.eqb_eq in E. subst. tauto.
  - apply IH. tauto.
Qed.

(** The ids appended by one group are the id of that group's label. *)
Lemma group_windows_ids (self : CSIDataPreprocessor) (k : string)
      (g : list sample) (ws : list array2) (ids : list Z) :
  group_windows self k g = Ok (ws, ids) ->
  ids = repeat (label_id k) (length ws).
Proof.
  unfold group_windows, res_bind.
  destruct (map_result (parse_sample self) g) as [rows |]; [| discriminate].
  destruct (np_array2 rows) as [features |]; [| discriminate].
  intros Heq. injection Heq as <- <-. apply map_const.
Qed.

Lemma all_windows_ids (self : CSIDataPreprocessor) (P : Z -> Prop)
      (groups : list (string * list sample)) :
  (forall k g, In (k, g) groups -> P (label_id k)) ->
  forall X0 y0 X y,
  Forall P y0 -> all_windows self groups X0 y0 = Ok (X, y) -> Forall P y.
Proof.
  induction groups as [| [k g] groups IH]; intros Hkeys X0 y0 X y Hy0; simpl.
  - intros Heq. now injection Heq as <- <-.
  - destruct (group_windows self k g) as [[ws ids] |] eqn:E; [| discriminate].
    unfold res_bind. apply IH.
    + intros k' g' Hin. apply (Hkeys k' g'). now right.
    + apply Forall_app. split; [assumption |].
      apply group_windows_ids in E. subst ids.
      apply Forall_forall. intros id Hid. apply repeat_spec in Hid. subst id.
      apply (Hkeys k g). now left.
Qed.

End LabelIds.

(* ================================================================== *)
(** * Empty amplitude *)
(* ================================================================== *)

Section EmptyAmplitude.

Import Train.
Local Open Scope Z_scope.

Lemma np_mean_zeros (k : nat) : np_mean (repeat 0%R k) = 0%R.
Proof. unfold np_mean. rewrite np_sum_zeros. unfold Rdiv. ring. Qed.

Lemma np_std_zeros (k : nat) : np_std (repeat 0%R k) 0 = 0%R.
Proof.
  unfold np_std, np_var. rewrite np_mean_zeros, map_repeat.
  replace ((0 - 0) * (0 - 0))%R with 0%R by ring.
  rewrite np_sum_zeros. unfold Rdiv. rewrite Rmult_0_l. apply sqrt_0.
Qed.

(** An all-zero array z-scores to itself: mean and deviation are 0 and the
    epsilon keeps the quotient defined. *)
Lemma zscore_zeros (k : nat) : zscore (repeat 0%R k) = repeat 0%R k.
Proof.
  unfold zscore. rewrite np_mean_zeros, np_std_zeros, map_repeat.
  f_equal. unfold Rdiv. ring.
Qed.

Lemma scale_phase_zeros (k : nat) : scale_phase (repeat 0%R k) = repeat 0%R k.
Proof.
  unfold scale_phase. rewrite map_repeat. f_equal. unfold Rdiv. ring.
Qed.

Lemma parse_sample_zeros (self : CSIDataPreprocessor) (s : sample) :
  0 <= num_subcarriers self ->
  s_amp s = Some [] -> (s_phase s = None \/ s_phase s = Some []) ->
  parse_sample self s = Ok (repeat 0%R (2 * Z.to_nat (num_subcarriers self))).
Proof.
  intros HS Hamp Hph.
  assert (Hwf : well_formed s).
  { exists []. split; [assumption |]. destruct Hph as [-> | ->]; auto. }
  rewrite (parse_sample_normalized self s HS Hwf).
  unfold normalized, phase_or_zero. rewrite Hamp.
  assert (Hzero : forall k, pad_or_truncate k [] = repeat 0%R k).
  { intros k. unfold pad_or_truncate. rewrite firstn_nil. simpl.
    now rewrite Nat.sub_0_r. }
  destruct Hph as [-> | ->]; simpl repeat; rewrite !Hzero;
    rewrite zscore_zeros, scale_phase_zeros, <- repeat_app;
    f_equal; f_equal; lia.
Qed.

(** C3, as the code has it.  For [S >= 0], a sample whose amplitude is
    empty (and whose phase is absent or empty too) is not rejected:
    [parse_sample] pads both arrays with zeros and returns the all-zero
    vector of length [2 * S]. *)
Theorem parse_sample_empty_amplitude (self : CSIDataPreprocessor) (s : sample) :
  0 <= num_subcarriers self ->
  s_amp s = Some [] -> (s_phase s = None \/ s_phase s = Some []) ->
  exists v, parse_sample self s = Ok v /\
            py_len v = 2 * num_subcarriers self /\
            Forall (fun x => x = 0%R) v.
Proof.
  intros HS Hamp Hph.
  exists (repeat 0%R (2 * Z.to_nat (num_subcarriers self))). split.
  - now apply parse_sample_zeros.
  - split.
    + unfold py_len. rewrite repeat_length. lia.
    + apply Forall_forall. intros x Hx. now apply repeat_spec in Hx.
Qed.

Lemma parse_sample_empty_amplitude_witness :
  exists v, parse_sample default_preprocessor empty_amplitude_sample = Ok v /\
            py_len v = 2 * 52 /\ Forall (fun x => x = 0%R) v.
Proof.
  apply (parse_sample_empty_amplitude default_preprocessor empty_amplitude_sample).
  - simpl. lia.
  - reflexivity.
  - left. reflexivity.
Defined.

(** C3 as stated fails: with the default configuration a sample with an
    empty amplitude is accepted, not rejected. *)
Lemma parse_sample_empty_amplitude_accepted :
  s_amp empty_amplitude_sample = Some [] /\
  parse_sample default_preprocessor empty_amplitude_sample = Ok (repeat 0%R 104) /\
  ~ (exists e, parse_sample default_preprocessor empty_amplitude_sample = Raise e).
Proof.
  assert (H : parse_sample default_preprocessor empty_amplitude_sample
              = Ok (repeat 0%R 104)).
  { apply (parse_sample_zeros default_preprocessor empty_amplitude_sample).
    - simpl. lia.
    - reflexivity.
    - left. reflexivity. }
  split; [reflexivity |]. split; [exact H |].
  intros [e He]. rewrite H in He. discriminate.
Qed.

End EmptyAmplitude.

(* ================================================================== *)
(** * Window counts and label purity *)
(* ================================================================== *)

Section WindowCounts.

Import Train.
Local Open Scope Z_scope.

Lemma map_snd_zip_repeat (samples : list sample) (l : string) :
  map snd (py_zip samples (repeat l (length samples))) = repeat l (length samples).
Proof.
  unfold py_zip. induction samples as [| s samples IH]; [reflexivity |].
  simpl. now rewrite IH.
Qed.

Lemma distinct_labels_repeat (l : string) (k : nat) :
  distinct_labels (repeat l k) = match k with O => [] | S _ => [l] end.
Proof.
  induction k as [| k IH]; [reflexivity |].
  change (repeat l (S k)) with (l :: repeat l k).
  rewrite repeat_cons, distinct_labels_snoc, IH.
  destruct k; simpl; [reflexivity | now rewrite String.eqb_refl].
Qed.

Lemma single_label_groups (samples : list sample) (l : string) :
  samples <> [] ->
  distinct_labels (map snd (py_zip samples (repeat l (length samples)))) = [l].
Proof.
  intros Hne. rewrite map_snd_zip_repeat, distinct_labels_repeat.
  destruct samples; [contradiction | reflexivity].
Qed.

Lemma Forall2_flat_map {A B C} (R : B -> C -> Prop)
      (f : A -> list B) (g : A -> list C) (D : list A) :
  (forall k, In k D -> Forall2 R (f k) (g k)) ->
  Forall2 R (flat_map f D) (flat_map g D).
Proof.
  induction D as [| k D IH]; intros Hall; simpl; [constructor |].
  apply Forall2_app.
  - apply Hall. now left.
  - apply IH. intros k' Hk'. apply Hall. now right.
Qed.

Lemma Forall2_repeat {B C} (R : B -> C -> Prop) (l : list B) (c : C) :
  Forall (fun b => R b c) l -> Forall2 R l (repeat c (length l)).
Proof. induction 1; simpl; constructor; assumption. Qed.

Lemma group_tensor_length (n w : nat) (pairs : list (sample * string)) (k : string) :
  length (group_tensor n w pairs k) = (length (with_label k pairs) + 1 - w)%nat.
Proof.
  unfold group_tensor, group_vectors.
  now rewrite length_map, sliding_length, length_map.
Qed.

(** Every row of a window of the group of [k] is the normalised vector of a
    sample that the input pairs with [k]. *)
Lemma group_tensor_rows (self : CSIDataPreprocessor)
      (pairs : list (sample * string)) (k : string) (a : array2) :
  let n := Z.to_nat (num_subcarriers self) in
  let w := Z.to_nat (window_size self) in
  (forall s l, In (s, l) pairs -> parses self s) ->
  In a (group_tensor n w pairs k) ->
  a2_shape a = (w, (2 * n)%nat) /\
  forall row, In row (a2_rows a) ->
    exists s, In (s, k) pairs /\ parse_sample self s = Ok row.
Proof.
  intros n w Hall Ha. unfold group_tensor in Ha.
  apply in_map_iff in Ha. destruct Ha as [win [<- Hwin]].
  apply sliding_window in Hwin. destruct Hwin as [Hlen Hincl].
  split; [unfold a2_shape; simpl; now rewrite Hlen |].
  intros row Hrow. simpl in Hrow. apply Hincl in Hrow.
  unfold group_vectors in Hrow. apply in_map_iff in Hrow.
  destruct Hrow as [s [<- Hs]]. apply with_label_in in Hs.
  exists s. split; [assumption |].
  now destruct (Hall s k Hs) as [_ Hparse].
Qed.

(** C1, as the code has it.  Let every sample be well formed (an
    amplitude, and a phase that is absent or as long as the amplitude),
    [S >= 0] and [W > 0].  Then
    [create_windows] returns, for every label in order of first occurrence,
    the stride-1 windows over that label's own samples: a group of [N]
    samples gives [N - W + 1] windows when [W <= N] and none when [W > N];
    every window has shape [(W, 2 * S)], carries its group's class id, and
    all its rows come from samples of that one label.  In particular 12
    samples labelled [sitting], [W = 10] and [S = 52] give a tensor of
    shape [(3, 10, 104)] and the ids [[4; 4; 4]]. *)
Theorem create_windows_per_label
  (self : CSIDataPreprocessor) (samples : list sample) (labels : list string) :
  0 <= num_subcarriers self -> 0 < window_size self ->
  Forall well_formed samples ->
  let n := Z.to_nat (num_subcarriers self) in
  let w := Z.to_nat (window_size self) in
  let pairs := py_zip samples labels in
  let D := distinct_labels (map snd pairs) in
  let count k := Z.to_nat (py_len (with_label k pairs) - window_size self + 1) in
  exists X y,
    create_windows self samples labels = Ok (X, y) /\
    X = flat_map (group_tensor n w pairs) D /\
    y = flat_map (fun k => repeat (label_id k) (count k)) D /\
    (forall k, length (group_tensor n w pairs k) = count k /\
               (window_size self <= py_len (with_label k pairs) ->
                Z.of_nat (count k) = py_len (with_label k pairs) - window_size self + 1) /\
               (py_len (with_label k pairs) < window_size self -> count k = 0%nat)) /\
    Forall2 (fun a id =>
               a2_shape a = (w, (2 * n)%nat) /\
               exists k, In k D /\ id = label_id k /\
                 forall row, In row (a2_rows a) ->
                   exists s, In (s, k) pairs /\ parse_sample self s = Ok row)
            X y /\
    (forall l, labels = repeat l (length samples) ->
       length X = Z.to_nat (py_len samples - window_size self + 1) /\
       y = repeat (label_id l) (Z.to_nat (py_len samples - window_size self + 1))) /\
    (window_size self = 10 -> num_subcarriers self = 52 ->
     length samples = 12%nat -> labels = repeat "sitting"%string 12 ->
     shape3 X = [3; 10; 104]%nat /\ y = [4; 4; 4]).
Proof.
  intros HS HW Hwf n w pairs D count.
  assert (Hparses : Forall (parses self) samples).
  { eapply Forall_impl; [| exact Hwf]. intros s. now apply well_formed_parses. }
  assert (Hpairs : forall s l, In (s, l) pairs -> parses self s).
  { intros s l Hin. apply in_combine_l in Hin.
    rewrite Forall_forall in Hparses. now apply Hparses. }
  assert (Hcount : forall k, (length (with_label k pairs) + 1 - w)%nat = count k).
  { intros k. unfold count, py_len, w. lia. }
  pose proof (create_windows_grouped self samples labels (Z.lt_le_incl _ _ HW) Hparses)
    as Hcw. cbv zeta in Hcw. fold pairs D n w in Hcw.
  eexists. eexists. split; [exact Hcw |].
  split; [reflexivity |].
  split.
  { clear Hcw. induction D as [| k D' IH]; simpl; [reflexivity |].
    now rewrite Hcount, IH. }
  split.
  { intros k. rewrite group_tensor_length, Hcount.
    unfold count, py_len. repeat split; lia. }
  assert (Hsingle : forall l, labels = repeat l (length samples) ->
            flat_map (group_tensor n w pairs) D =
              map (mk_array2 (2 * n)) (sliding w (map (normalized n) samples)) /\
            flat_map (fun k => repeat (label_id k)
                                 (length (with_label k pairs) + 1 - w)) D =
              repeat (label_id l) (length samples + 1 - w)).
  { intros l Hl. unfold D, pairs. rewrite Hl.
    assert (Hcase : samples = [] \/ samples <> [])
      by (destruct samples; [left | right]; congruence).
    destruct Hcase as [Hnil | Hne].
    - rewrite Hnil. simpl. unfold sliding. simpl.
      destruct w eqn:Ew; [unfold w in Ew; lia | split; reflexivity].
    - rewrite (single_label_groups samples l Hne). simpl flat_map.
      rewrite !app_nil_r.
      unfold group_tensor, group_vectors. now rewrite with_label_all. }
  split.
  { apply Forall2_flat_map. intros k Hk.
    rewrite <- (group_tensor_length n w pairs k). apply Forall2_repeat.
    apply Forall_forall. intros a Ha.
    destruct (group_tensor_rows self pairs k a Hpairs Ha) as [Hshape Hrows].
    split; [exact Hshape |]. exists k. repeat split; assumption. }
  split.
  { intros l Hl. destruct (Hsingle l Hl) as [HX Hy].
    rewrite HX, Hy, length_map, sliding_length, length_map.
    unfold py_len, w. split; [lia | f_equal; lia]. }
  intros HW10 HS52 Hlen Hl. rewrite <- Hlen in Hl.
  destruct (Hsingle _ Hl) as [HX Hy]. rewrite HX, Hy.
  unfold n, w. rewrite HW10, HS52, Hlen. split; [| reflexivity].
  assert (Hrows : length (map (normalized (Z.to_nat 52)) samples) = 12%nat)
    by now rewrite length_map.
  remember (map (normalized (Z.to_nat 52)) samples) as rows eqn:Erows.
  clear - Hrows.
  do 13 (destruct rows as [| ? rows]; try discriminate).
  reflexivity.
Qed.

End WindowCounts.

Section WindowExamples.

Import Train.
Local Open Scope Z_scope.
Local Open Scope string_scope.

Lemma twelve_samples_well_formed : Forall well_formed twelve_samples.
Proof.
  apply Forall_forall. intros s Hs. apply repeat_spec in Hs. subst s.
  exists (repeat 1%R 52). split; [reflexivity | exact I].
Qed.

Lemma create_windows_per_label_witness :
  exists X,
    create_windows example_preprocessor twelve_samples (repeat "sitting" 12)
    = Ok (X, [4; 4; 4]) /\
    shape3 X = [3; 10; 104]%nat.
Proof.
  destruct (create_windows_per_label example_preprocessor twelve_samples
              (repeat "sitting" 12))
    as (X & y & Hcw & _ & _ & _ & _ & _ & Hex).
  - simpl. lia.
  - simpl. lia.
  - exact twelve_samples_well_formed.
  - destruct Hex as [Hshape Hy]; try reflexivity.
    exists X. rewrite <- Hy. split; assumption.
Defined.

(** The windows of an input in which every sample carries the same label. *)
Lemma create_windows_single_label
      (self : CSIDataPreprocessor) (samples : list sample) (l : string) :
  0 <= window_size self -> (0 < window_size self \/ samples <> []) ->
  Forall (parses self) samples ->
  let n := Z.to_nat (num_subcarriers self) in
  let w := Z.to_nat (window_size self) in
  create_windows self samples (repeat l (length samples)) =
  Ok (map (mk_array2 (2 * n)) (sliding w (map (normalized n) samples)),
      repeat (label_id l) (length samples + 1 - w)).
Proof.
  intros HW Hne Hall n w.
  rewrite (create_windows_grouped self samples _ HW Hall). cbv zeta.
  assert (Hcase : samples = [] \/ samples <> [])
    by (destruct samples; [left | right]; congruence).
  destruct Hcase as [Hnil | Hne'].
  - destruct Hne as [Hpos | Hne]; [| contradiction].
    rewrite Hnil. simpl. unfold sliding. simpl.
    destruct w eqn:Ew; [unfold w in Ew; lia | reflexivity].
  - rewrite (single_label_groups samples l Hne').
    simpl flat_map. rewrite !app_nil_r.
    unfold group_tensor, group_vectors. now rewrite with_label_all.
Qed.

(** C1 as stated fails: a single-label group of one sample with a label and
    a non-empty amplitude, and [W = 1 <= N], does not yield [N - W + 1 = 1]
    window when the sample's phase is longer than [S] and its amplitude
    shorter: [np.pad] is given a negative width and [create_windows]
    raises. *)
Lemma create_windows_long_phase_raises :
  s_amp long_phase_sample = Some [1%R] /\
  s_phase long_phase_sample = Some [0%R; 0%R; 0%R] /\
  create_windows (mk_preprocessor 1 2 4) [long_phase_sample] ["sitting"]
  = Raise (ValueError "index can't contain negative values").
Proof. repeat split. Qed.

Lemma sliding_zero (rows : list vec) (win : list vec) :
  In win (sliding 0 rows) -> win = [].
Proof.
  intros Hin. apply sliding_window in Hin. destruct Hin as [Hlen _].
  now destruct win.
Qed.

Lemma normalized_zero (s : sample) : normalized 0 s = [].
Proof. unfold normalized. now destruct (s_amp s). Qed.

(** C4, as the code has it.  The constructor stores its arguments
    unchecked and [create_windows] checks nothing either: with a window
    size of 0 a group of [N >= 1] well-formed samples yields [N + 1] windows
    of no rows, and with [S = 0] the windows are the usual
    [max(0, N - W + 1)] ones, made of empty feature vectors. *)
Theorem no_configuration_check :
  (forall W S, exists self,
      init W S = Ok self /\ window_size self = W /\ num_subcarriers self = S) /\
  (forall self samples l,
      window_size self = 0 -> 0 <= num_subcarriers self ->
      samples <> [] -> Forall well_formed samples ->
      exists X,
        create_windows self samples (repeat l (length samples))
        = Ok (X, repeat (label_id l) (length samples + 1)) /\
        length X = (length samples + 1)%nat /\
        Forall (fun a => a2_rows a = []) X) /\
  (forall self samples l,
      num_subcarriers self = 0 -> 0 < window_size self ->
      Forall (fun s => exists amp, s_amp s = Some amp) samples ->
      exists X,
        create_windows self samples (repeat l (length samples))
        = Ok (X, repeat (label_id l)
                   (Z.to_nat (py_len samples - window_size self + 1))) /\
        length X = Z.to_nat (py_len samples - window_size self + 1) /\
        Forall (fun a => Forall (fun row => row = []) (a2_rows a)) X).
Proof.
  split; [| split].
  - intros W S. eexists. split; [reflexivity | split; reflexivity].
  - intros self samples l HW HS Hne Hwf.
    assert (Hall : Forall (parses self) samples).
    { eapply Forall_impl; [| exact Hwf]. intros s. now apply well_formed_parses. }
    rewrite create_windows_single_label; [| lia | now right | assumption].
    cbv zeta. rewrite HW. simpl Z.to_nat. rewrite Nat.sub_0_r.
    eexists. split; [reflexivity |]. split.
    + now rewrite length_map, sliding_length, length_map, Nat.sub_0_r.
    + apply Forall_forall. intros a Ha. apply in_map_iff in Ha.
      destruct Ha as [win [<- Hwin]]. simpl. now apply sliding_zero in Hwin.
  - intros self samples l HS HW Hamp.
    assert (Hall : Forall (parses self) samples).
    { eapply Forall_impl; [| exact Hamp]. intros s [amp Hs].
      now apply zero_subcarriers_parses with amp. }
    rewrite create_windows_single_label; [| lia | now left | assumption].
    cbv zeta. rewrite HS. simpl Z.to_nat.
    replace (length samples + 1 - Z.to_nat (window_size self))%nat
      with (Z.to_nat (py_len samples - window_size self + 1))
      by (unfold py_len; lia).
    eexists. split; [reflexivity |]. split.
    + rewrite length_map, sliding_length, length_map. unfold py_len. lia.
    + apply Forall_forall. intros a Ha. apply in_map_iff in Ha.
      destruct Ha as [win [<- Hwin]]. simpl.
      apply sliding_window in Hwin. destruct Hwin as [_ Hincl].
      apply Forall_forall. intros row Hrow. apply Hincl in Hrow.
      apply in_map_iff in Hrow. destruct Hrow as [s [<- _]].
      apply normalized_zero.
Qed.

Lemma no_configuration_check_witness :
  (exists X,
     create_windows (mk_preprocessor 0 52 104) twelve_samples (repeat "sitting" 12)
     = Ok (X, repeat 4 13) /\ length X = 13%nat) /\
  (exists X,
     create_windows (mk_preprocessor 10 0 0) twelve_samples (repeat "sitting" 12)
     = Ok (X, [4; 4; 4]) /\ length X = 3%nat).
Proof.
  destruct no_configuration_check as (_ & Hw0 & Hs0). split.
  - destruct (Hw0 (mk_preprocessor 0 52 104) twelve_samples "sitting")
      as (X & Hcw & Hlen & _).
    + reflexivity.
    + simpl. lia.
    + discriminate.
    + exact twelve_samples_well_formed.
    + exists X. split; assumption.
  - destruct (Hs0 (mk_preprocessor 10 0 0) twelve_samples "sitting")
      as (X & Hcw & Hlen & _).
    + reflexivity.
    + simpl. lia.
    + apply Forall_forall. intros s Hs. apply repeat_spec in Hs. subst s.
      now exists (repeat 1%R 52).
    + exists X. split; assumption.
Defined.

(** C4 as stated fails: a window size of 0 and a subcarrier count of 0 are
    accepted by the constructor, and [create_windows] then returns a result
    instead of raising. *)
Lemma zero_configuration_accepted :
  exists self, init 0 0 = Ok self /\
    window_size self = 0 /\ num_subcarriers self = 0 /\
    create_windows self [empty_amplitude_sample] ["sitting"]
    = Ok ([mk_array2 0 []; mk_array2 0 []], [4; 4]).
Proof.
  eexists. split; [reflexivity |]. repeat split.
Qed.

End WindowExamples.

Section ClassIds.

Import Train.
Local Open Scope Z_scope.
Local Open Scope string_scope.

(** C5. The label-to-id table is fixed: [empty = 0], [present = 1],
    [moving = 2], [walking = 3], [sitting = 4], [standing = 5]; every label
    outside the table gets id [0].  And the windowing engine uses this
    table and nothing else: for well-formed samples, [S >= 0] and [W > 0],
    [create_windows] returns, group by group in order of first occurrence,
    as many copies of the table's id of the group's label as the group has
    windows, so that every window is paired with the id of its own group;
    a dataset of [N >= W] samples under a single label thus gets
    [N - W + 1] ids, at least one, all equal to the table's id of that
    label. *)
Theorem label_id_table :
  label_id "empty" = 0 /\ label_id "present" = 1 /\ label_id "moving" = 2 /\
  label_id "walking" = 3 /\ label_id "sitting" = 4 /\ label_id "standing" = 5 /\
  (forall l, ~ In l ["empty"; "present"; "moving"; "walking"; "sitting"; "standing"] ->
             label_id l = 0) /\
  (forall (self : CSIDataPreprocessor) (samples : list sample) (labels : list string),
      0 <= num_subcarriers self -> 0 < window_size self ->
      Forall well_formed samples ->
      let n := Z.to_nat (num_subcarriers self) in
      let w := Z.to_nat (window_size self) in
      let pairs := py_zip samples labels in
      let D := distinct_labels (map snd pairs) in
      exists X y,
        create_windows self samples labels = Ok (X, y) /\
        X = flat_map (group_tensor n w pairs) D /\
        y = flat_map (fun k => repeat (label_id k)
                                 (length (group_tensor n w pairs k))) D /\
        Forall2 (fun a id =>
                   exists k, In k D /\ In a (group_tensor n w pairs k) /\
                             id = label_id k) X y /\
        (forall l, labels = repeat l (length samples) ->
           window_size self <= py_len samples ->
           y = repeat (label_id l)
                 (Z.to_nat (py_len samples - window_size self + 1)) /\
           y <> [])).
Proof.
  repeat (split; [reflexivity |]).
  split.
  { intros l Hnot. unfold label_id. now apply dict_get_default. }
  intros self samples labels HS HW Hwf n w pairs D.
  assert (Hparses : Forall (parses self) samples).
  { eapply Forall_impl; [| exact Hwf]. intros s. now apply well_formed_parses. }
  pose proof (create_windows_grouped self samples labels (Z.lt_le_incl _ _ HW) Hparses)
    as Hcw. cbv zeta in Hcw. fold pairs D n w in Hcw.
  assert (Hy : flat_map (fun k => repeat (label_id k)
                                    (length (with_label k pairs) + 1 - w)) D =
               flat_map (fun k => repeat (label_id k)
                                    (length (group_tensor n w pairs k))) D).
  { apply flat_map_ext. intros k. now rewrite group_tensor_length. }
  rewrite Hy in Hcw.
  eexists. eexists. split; [exact Hcw |].
  split; [reflexivity |]. split; [reflexivity |].
  split.
  { apply Forall2_flat_map. intros k Hk. apply Forall2_repeat.
    apply Forall_forall. intros a Ha. exists k. repeat split; assumption. }
  intros l Hl HN.
  pose proof (create_windows_single_label self samples l (Z.lt_le_incl _ _ HW)
                (or_introl HW) Hparses) as Hone.
  cbv zeta in Hone. rewrite <- Hl, Hcw in Hone. injection Hone as _ Hids.
  rewrite Hids.
  replace (length samples + 1 - Z.to_nat (window_size self))%nat
    with (Z.to_nat (py_len samples - window_size self + 1))
    by (unfold py_len; lia).
  split; [reflexivity |].
  destruct (Z.to_nat (py_len samples - window_size self + 1)) eqn:E;
    [unfold py_len in *; lia | discriminate].
Qed.

(** The table at work on two samples with two subcarriers each, one under
    a label of the table and one under a label outside it. *)
Lemma label_id_table_witness :
  label_id "jumping" = 0 /\
  exists X,
    create_windows (mk_preprocessor 1 2 4)
      [raw_sample [1%R; 2%R] None; raw_sample [3%R; 5%R] None]
      ["walking"; "jumping"] = Ok (X, [3; 0]) /\
    length X = 2%nat.
Proof.
  destruct label_id_table as (_ & _ & _ & _ & _ & _ & Hdefault & Hids).
  split.
  - apply Hdefault. simpl. intuition discriminate.
  - destruct (Hids (mk_preprocessor 1 2 4)
                [raw_sample [1%R; 2%R] None; raw_sample [3%R; 5%R] None]
                ["walking"; "jumping"])
      as (X & y & Hrun & HX & Hy & _).
    + simpl. lia.
    + simpl. lia.
    + repeat constructor; eexists; (split; [reflexivity | exact I]).
    + exists X. rewrite Hrun, Hy, HX. split; reflexivity.
Defined.

End ClassIds.

Section ParseSampleExamples.

Import Train.
Local Open Scope Z_scope.

Lemma parse_sample_fixed_length_witness :
  exists v,
    parse_sample default_preprocessor (raw_sample [1%R; 2%R; 3%R] None) = Ok v /\
    py_len v = 104.
Proof.
  destruct (parse_sample_fixed_length default_preprocessor
              (raw_sample [1%R; 2%R; 3%R] None) [1%R; 2%R; 3%R])
    as (Hparse & _ & _ & Hlen & _).
  - simpl. lia.
  - reflexivity.
  - discriminate.
  - exact I.
  - eexists. split; [exact Hparse | exact Hlen].
Defined.

Lemma parse_sample_short_phase_witness :
  exists v,
    parse_sample (mk_preprocessor 50 2 4) short_phase_sample = Ok v /\
    py_len v = 2 + 1 /\ py_len v <> 2 * 2.
Proof.
  destruct (parse_sample_short_phase (mk_preprocessor 50 2 4) short_phase_sample
              [1%R; 2%R; 3%R] [0%R]) as [_ Hpresent].
  - simpl. lia.
  - reflexivity.
  - destruct (Hpresent eq_refl) as [Hshort _]. apply Hshort.
    + unfold py_len. simpl. lia.
    + unfold py_len. simpl. lia.
Defined.

(** Unequal lengths do not always break the length: with three amplitude
    entries, one phase entry and [S = 5] both arrays are shorter than [S],
    both are padded to [S], and the vector has length [2 * S]. *)
Lemma parse_sample_both_padded :
  s_amp short_phase_sample = Some [1%R; 2%R; 3%R] /\
  s_phase short_phase_sample = Some [0%R] /\
  length [0%R] <> length [1%R; 2%R; 3%R] /\
  exists v,
    parse_sample (mk_preprocessor 50 5 10) short_phase_sample = Ok v /\
    py_len v = 2 * 5.
Proof.
  split; [reflexivity |]. split; [reflexivity |].
  split; [simpl; lia |].
  eexists. split; reflexivity.
Qed.

End ParseSampleExamples.

(* ================================================================== *)
(** * Per-sample statistics, [compute_features] *)
(* ================================================================== *)

Section Statistics.

Import Analyze.
Local Open Scope R_scope.

(** Decides the comparisons of concrete reals that sorting, [min] and
    [max] branch on. *)
Ltac decide_reals :=
  repeat match goal with
         | |- context [Rle_dec ?a ?b] =>
             lazymatch a with
             | context [Rle_dec _ _] => fail
             | _ => idtac
             end;
             destruct (Rle_dec a b);
             [try (exfalso; lra) | try (exfalso; lra)]; simpl
         end.

Lemma np_var_population (v : vec) : np_var v 0 = population_variance v.
Proof.
  unfold np_var, population_variance. rewrite Nat.sub_0_r. reflexivity.
Qed.

Lemma if_nonempty_nil (stat : R) : if_nonempty [] stat = 0.
Proof. reflexivity. Qed.

Lemma one_to_five_mean : np_mean [1; 2; 3; 4; 5] = 3.
Proof. unfold np_mean, np_sum. simpl. lra. Qed.

Lemma one_to_five_squares :
  np_sum (map (fun x => Rsqr (x - np_mean [1; 2; 3; 4; 5])) [1; 2; 3; 4; 5]) = 10.
Proof. rewrite one_to_five_mean. unfold np_sum, Rsqr. simpl. lra. Qed.

Lemma one_to_five_variance : population_variance [1; 2; 3; 4; 5] = 2.
Proof. unfold population_variance. rewrite one_to_five_squares. simpl. lra. Qed.

Lemma one_to_five_sorted : np_sort [1; 2; 3; 4; 5] = [1; 2; 3; 4; 5].
Proof. unfold np_sort. simpl. decide_reals. reflexivity. Qed.

Lemma one_to_five_min : fold_left Rmin [2; 3; 4; 5] 1 = 1.
Proof. simpl. unfold Rmin. decide_reals; lra. Qed.

Lemma one_to_five_max : fold_left Rmax [2; 3; 4; 5] 1 = 5.
Proof. simpl. unfold Rmax. decide_reals; lra. Qed.

(** C8.  [compute_features] works on the raw amplitude of the sample, its
    variance and standard deviation are the population ones (divisor [n]),
    the three phase statistics are 0 when the phase is absent or empty, and
    on the amplitude [[1; 2; 3; 4; 5]] it yields mean 3, standard deviation
    [sqrt 2], minimum 1, maximum 5, range 4 and median 3. *)
Theorem compute_features_statistics :
  (forall s amp, s_amp s = Some amp -> amp <> [] ->
     exists f, compute_features s = Ok f /\
       amp_mean f = np_mean amp /\
       amp_var f = population_variance amp /\
       amp_std f = sqrt (population_variance amp) /\
       ((s_phase s = None \/ s_phase s = Some []) ->
        phase_mean f = 0 /\ phase_std f = 0 /\ phase_var f = 0)) /\
  (forall s, s_amp s = Some [1; 2; 3; 4; 5] ->
     exists f, compute_features s = Ok f /\
       amp_mean f = 3 /\ amp_std f = sqrt 2 /\ amp_var f = 2 /\
       amp_min f = 1 /\ amp_max f = 5 /\ amp_range f = 4 /\ amp_median f = 3) /\
  sample_variance [1; 2; 3; 4; 5] = 5 / 2.
Proof.
  split; [| split].
  - intros s amp Hamp Hne. unfold compute_features. rewrite Hamp.
    destruct amp as [| x xs]; [contradiction |].
    unfold np_ptp, np_max, np_min, res_bind.
    eexists. split; [reflexivity |]. cbn [amp_mean amp_var amp_std].
    split; [reflexivity |].
    split; [apply np_var_population |].
    split; [unfold np_std; now rewrite np_var_population |].
    cbn [phase_mean phase_std phase_var].
    intros [-> | ->]; repeat split; apply if_nonempty_nil.
  - intros s Hamp. unfold compute_features. rewrite Hamp.
    unfold np_ptp, np_max, np_min, res_bind.
    eexists. split; [reflexivity |].
    cbn [amp_mean amp_var amp_std amp_min amp_max amp_range amp_median].
    unfold np_std. rewrite np_var_population, one_to_five_variance.
    rewrite one_to_five_mean, one_to_five_min, one_to_five_max.
    unfold np_median. rewrite one_to_five_sorted. simpl.
    repeat split; lra.
  - unfold sample_variance. rewrite one_to_five_squares. simpl. lra.
Qed.

Lemma compute_features_statistics_witness :
  exists f, compute_features (raw_sample [1; 2; 3; 4; 5] None) = Ok f /\
    amp_mean f = 3 /\ amp_std f = sqrt 2 /\
    phase_mean f = 0 /\ phase_std f = 0 /\ phase_var f = 0.
Proof.
  destruct compute_features_statistics as (Hgen & Hex & _).
  destruct (Hex (raw_sample [1; 2; 3; 4; 5] None) eq_refl)
    as (f & Hf & Hmean & Hstd & _).
  destruct (Hgen (raw_sample [1; 2; 3; 4; 5] None) [1; 2; 3; 4; 5] eq_refl)
    as (f' & Hf' & _ & _ & _ & Hphase); [discriminate |].
  rewrite Hf in Hf'. injection Hf' as <-.
  exists f. split; [exact Hf |]. split; [exact Hmean |]. split; [exact Hstd |].
  apply Hphase. now left.
Defined.

End Statistics.

(* ================================================================== *)
(** * The synthetic trace generator *)
(* ================================================================== *)

Section GeneratorFacts.

Import Synth.
Context {rng : Type} {RS : NumpyRandom rng}.

(** ** Computations that return *)

Lemma returns_ret {A} (a : A) (Q : A -> Prop) :
  Q a -> returns (rng := rng) (ret a) Q.
Proof. intros HQ w. exists a, w. now split. Qed.

Lemma returns_bind {A B} (m : M rng A) (k : A -> M rng B)
      (P : A -> Prop) (Q : B -> Prop) :
  returns m P -> (forall a, P a -> returns (k a) Q) -> returns (bind m k) Q.
Proof.
  intros Hm Hk w. destruct (Hm w) as (a & w1 & Hmw & HP).
  destruct (Hk a HP w1) as (b & w2 & Hkw & HQ).
  exists b, w2. unfold bind. rewrite Hmw. now split.
Qed.

Lemma returns_weaken {A} (m : M rng A) (P Q : A -> Prop) :
  returns m P -> (forall a, P a -> Q a) -> returns m Q.
Proof.
  intros Hm HPQ w. destruct (Hm w) as (a & w1 & Hmw & HP).
  exists a, w1. split; [assumption | now apply HPQ].
Qed.

Lemma returns_print (line : string) : returns (rng := rng) (print line) (fun _ => True).
Proof. intros w. eexists. eexists. split; [reflexivity | exact I]. Qed.

Lemma returns_now : returns (rng := rng) datetime_now_isoformat (fun _ => True).
Proof. intros w. eexists. eexists. split; [reflexivity | exact I]. Qed.

Lemma returns_randint (low high : Z) :
  (low < high)%Z ->
  returns (np_random_randint low high) (fun t => (low <= t < high)%Z).
Proof.
  intros Hlt w. unfold np_random_randint.
  destruct (high <=? low)%Z eqn:E; [apply Z.leb_le in E; lia |].
  pose proof (@randint_range _ _ low high (w_rng w) Hlt) as Hr.
  destruct (randint_draw low high (w_rng w)) as [t g].
  eexists. eexists. split; [reflexivity | exact Hr].
Qed.

Section Draws.

(** A property of every deviate the source can return. *)
Variable P : R -> Prop.
Hypothesis deviates : forall g : rng, P (fst (standard_normal g)).

Lemma normal_draws_spec (loc scale : R) (k : nat) (g : rng) :
  length (fst (normal_draws loc scale k g)) = k /\
  Forall (fun x => exists z, P z /\ x = (loc + scale * z)%R)
         (fst (normal_draws loc scale k g)).
Proof.
  revert g. induction k as [| k IH]; intros g; simpl.
  - split; [reflexivity | constructor].
  - pose proof (deviates g) as Hz.
    destruct (standard_normal g) as [z g1]. simpl in Hz.
    destruct (IH g1) as [Hlen Hall].
    destruct (normal_draws loc scale k g1) as [zs g2]. simpl in *.
    split; [now rewrite Hlen |].
    constructor; [now exists z | assumption].
Qed.

Lemma returns_normal_vec (loc scale : R) (size : Z) :
  (0 <= scale)%R -> (0 <= size)%Z ->
  returns (np_random_normal_vec loc scale size)
          (fun v => length v = Z.to_nat size /\
                    Forall (fun x => exists z, P z /\ x = (loc + scale * z)%R) v).
Proof.
  intros Hscale Hsize w. unfold np_random_normal_vec.
  destruct (Rlt_dec scale 0) as [Hneg | _]; [lra |].
  destruct (size <? 0)%Z eqn:E; [apply Z.ltb_lt in E; lia |].
  pose proof (normal_draws_spec loc scale (Z.to_nat size) (w_rng w)) as Hspec.
  destruct (normal_draws loc scale (Z.to_nat size) (w_rng w)) as [v g].
  eexists. eexists. split; [reflexivity | exact Hspec].
Qed.

Lemma returns_normal (loc scale : R) :
  (0 <= scale)%R ->
  returns (np_random_normal loc scale)
          (fun x => exists z, P z /\ x = (loc + scale * z)%R).
Proof.
  intros Hscale w. unfold np_random_normal.
  destruct (Rlt_dec scale 0) as [Hneg | _]; [lra |].
  pose proof (deviates (w_rng w)) as Hz.
  destruct (standard_normal (w_rng w)) as [z g]. simpl in Hz.
  eexists. eexists. split; [reflexivity | now exists z].
Qed.

End Draws.

(** A loop returns when its body does; [Inv i] holds after [i] rounds. *)
Lemma returns_for_each {A B} (body : A -> B -> M rng B) (Inv : nat -> B -> Prop)
      (l : list A) :
  (forall i x b, Inv i b -> returns (body x b) (Inv (S i))) ->
  forall i acc, Inv i acc ->
  returns (for_each l body acc) (Inv (i + length l)).
Proof.
  intros Hbody. induction l as [| x l IH]; intros i acc Hinv; simpl.
  - rewrite Nat.add_0_r. now apply returns_ret.
  - apply returns_bind with (P := Inv (S i)); [now apply Hbody |].
    intros acc' Hacc'. rewrite Nat.add_succ_r. now apply (IH (S i)).
Qed.

End GeneratorFacts.

Section GeneratorSpecs.

Import Synth.
Context {rng : Type} {RS : NumpyRandom rng}.

Variable P : R -> Prop.
Hypothesis deviates : forall g : rng, P (fst (standard_normal g)).

Variable self : SyntheticCSIGenerator.
Hypothesis subcarriers_nonneg : (0 <= num_subcarriers self)%Z.

Lemma np_clip_lo_spec (amp : vec) :
  length (np_clip_lo amp 0) = length amp /\
  Forall (fun a => (0 <= a)%R) (np_clip_lo amp 0).
Proof.
  unfold np_clip_lo. split; [apply length_map |].
  apply Forall_forall. intros a Ha. apply in_map_iff in Ha.
  destruct Ha as [x [<- _]]. apply Rmax_r.
Qed.

Lemma np_clip_spec (ph : vec) :
  length (np_clip ph (- PI) PI) = length ph /\
  Forall in_pi_range (np_clip ph (- PI) PI).
Proof.
  unfold np_clip. split; [apply length_map |].
  apply Forall_forall. intros a Ha. apply in_map_iff in Ha.
  destruct Ha as [x [<- _]]. unfold in_pi_range.
  pose proof PI_RGT_0 as Hpi. split.
  - apply Rmin_glb; [apply Rmax_r | lra].
  - apply Rmin_r.
Qed.

Lemma built_snoc (L : string) (phase_ok : R -> Prop) (i : nat)
      (samples : list sample) (ts : Z) (rssi : R) (amp ph : vec) (d : string) :
  built (num_subcarriers self) L phase_ok i samples ->
  length amp = Z.to_nat (num_subcarriers self) ->
  length ph = Z.to_nat (num_subcarriers self) ->
  Forall phase_ok ph ->
  built (num_subcarriers self) L phase_ok (S i)
    (samples ++ [mk_sample (Some ts) (Some rssi) (Some (num_subcarriers self))
                   (Some (np_clip_lo amp 0)) (Some ph) (Some L) (Some d)]).
Proof.
  intros [Hlen Hall] Hamp Hph Hok. split.
  - rewrite length_app, Hlen. simpl. lia.
  - apply Forall_app. split; [assumption |].
    constructor; [| constructor].
    destruct (np_clip_lo_spec amp) as [Hcl Hpos].
    repeat split; simpl.
    + exists (np_clip_lo amp 0). repeat split; [congruence | assumption].
    + exists ph. repeat split; assumption.
Qed.

(** One [np.random] call of a loop body, with what it returns. *)
Ltac draw :=
  cbv zeta;
  first
    [ eapply returns_bind;
      [ apply (returns_normal_vec P deviates);
        [ try lra | exact subcarriers_nonneg ]
      | intros ? [? ?] ]
    | eapply returns_bind;
      [ apply returns_randint; lia | intros ? _ ]
    | eapply returns_bind;
      [ apply (returns_normal P deviates); lra | intros ? _ ] ].

Ltac finish_loop num_samples :=
  intros samples Hbuilt; simpl in Hbuilt;
  rewrite py_range_length in Hbuilt; exact Hbuilt.

Lemma generate_empty_room_returns (num_samples : Z) :
  returns (generate_empty_room self num_samples)
          (built (num_subcarriers self) "empty" (drawn P 0.05) (Z.to_nat num_samples)).
Proof.
  unfold generate_empty_room.
  eapply returns_weaken.
  - apply (returns_for_each _ (built (num_subcarriers self) "empty" (drawn P 0.05))) with (i := 0%nat).
    + intros i x samples Hb. do 4 draw. apply returns_ret.
      apply built_snoc; assumption.
    + split; [reflexivity | constructor].
  - finish_loop num_samples.
Qed.

Lemma generate_person_present_returns (num_samples : Z) :
  returns (generate_person_present self num_samples)
          (built (num_subcarriers self) "present" (drawn P 0.2) (Z.to_nat num_samples)).
Proof.
  unfold generate_person_present.
  eapply returns_weaken.
  - apply (returns_for_each _ (built (num_subcarriers self) "present" (drawn P 0.2))) with (i := 0%nat).
    + intros i x samples Hb. do 4 draw. apply returns_ret.
      apply built_snoc; assumption.
    + split; [reflexivity | constructor].
  - finish_loop num_samples.
Qed.

Lemma generate_sitting_returns (num_samples : Z) :
  returns (generate_sitting self num_samples)
          (built (num_subcarriers self) "sitting" (drawn P 0.15) (Z.to_nat num_samples)).
Proof.
  unfold generate_sitting.
  eapply returns_weaken.
  - apply (returns_for_each _ (built (num_subcarriers self) "sitting" (drawn P 0.15))) with (i := 0%nat).
    + intros i x samples Hb. do 4 draw. apply returns_ret.
      apply built_snoc; assumption.
    + split; [reflexivity | constructor].
  - finish_loop num_samples.
Qed.

Lemma generate_standing_returns (num_samples : Z) :
  returns (generate_standing self num_samples)
          (built (num_subcarriers self) "standing" (drawn P 0.22) (Z.to_nat num_samples)).
Proof.
  unfold generate_standing.
  eapply returns_weaken.
  - apply (returns_for_each _ (built (num_subcarriers self) "standing" (drawn P 0.22))) with (i := 0%nat).
    + intros i x samples Hb. do 4 draw. apply returns_ret.
      apply built_snoc; assumption.
    + split; [reflexivity | constructor].
  - finish_loop num_samples.
Qed.

Lemma generate_walking_returns (num_samples : Z) :
  returns (generate_walking self num_samples)
          (built (num_subcarriers self) "walking" in_pi_range (Z.to_nat num_samples)).
Proof.
  unfold generate_walking.
  eapply returns_weaken.
  - apply (returns_for_each _ (built (num_subcarriers self) "walking" in_pi_range))
      with (i := 0%nat).
    + intros i x samples Hb. draw. cbv zeta.
      eapply returns_bind.
      { apply (returns_normal_vec P deviates); [| exact subcarriers_nonneg].
        pose proof (SIN_bound (2 * PI * IZR x / 10)). lra. }
      intros ph [Hph _]. do 2 draw. apply returns_ret.
      destruct (np_clip_spec ph) as [Hlen Hrange].
      apply built_snoc; [assumption | assumption | congruence | assumption].
    + split; [reflexivity | constructor].
  - finish_loop num_samples.
Qed.

Lemma generate_moving_returns (num_samples : Z) :
  returns (generate_moving self num_samples)
          (built (num_subcarriers self) "moving" in_pi_range (Z.to_nat num_samples)).
Proof.
  unfold generate_moving.
  eapply returns_bind.
  - apply (returns_for_each _
             (fun i (st : list sample * R) =>
                built (num_subcarriers self) "moving" in_pi_range i (fst st)))
      with (i := 0%nat).
    + intros i x [samples phase_offset] Hb. simpl in Hb.
      draw. draw. cbv zeta.
      eapply returns_bind.
      { apply (returns_normal_vec P deviates); [lra | exact subcarriers_nonneg]. }
      intros ph [Hph _]. do 2 draw. apply returns_ret. simpl.
      destruct (np_clip_spec ph) as [Hlen Hrange].
      apply built_snoc; [assumption | assumption | congruence | assumption].
    + split; [reflexivity | constructor].
  - intros st Hbuilt. apply returns_ret. simpl in Hbuilt.
    now rewrite py_range_length in Hbuilt.
Qed.

End GeneratorSpecs.

(* ================================================================== *)
(** * Shuffling and the per-class counts of a dataset *)
(* ================================================================== *)

Section Shuffle.

Import Synth.
Context {rng : Type} {RS : NumpyRandom rng}.

Lemma list_set_length {A} (l : list A) (i : nat) (v : A) :
  length (list_set l i v) = length l.
Proof.
  revert i. induction l as [| h t IH]; intros [| i]; simpl; auto.
Qed.

(** Writing [a] over the entry [b] of [t] trades [b] for [a]. *)
Lemma list_set_perm {A} (t : list A) (j : nat) (a b : A) :
  nth_error t j = Some b -> Permutation (b :: list_set t j a) (a :: t).
Proof.
  revert j. induction t as [| c t IH]; intros [| j] Hnth; simpl in *;
    try discriminate.
  - injection Hnth as ->. apply perm_swap.
  - apply IH in Hnth.
    eapply perm_trans; [apply perm_swap |].
    eapply perm_trans; [apply perm_skip; exact Hnth |].
    apply perm_swap.
Qed.

Lemma list_set_swap_perm {A} (x : list A) (i j : nat) (xi xj : A) :
  nth_error x i = Some xi -> nth_error x j = Some xj ->
  Permutation (list_set (list_set x i xj) j xi) x.
Proof.
  revert i j. induction x as [| a t IH]; intros [| i] [| j] Hi Hj; simpl in *;
    try discriminate.
  - injection Hi as ->. injection Hj as ->. apply Permutation_refl.
  - injection Hi as ->. now apply list_set_perm.
  - injection Hj as ->. now apply list_set_perm.
  - apply perm_skip. now apply IH.
Qed.

Lemma swap_ok {A} (x : list A) (i j : nat) :
  (i < length x)%nat -> (j < length x)%nat ->
  exists x', swap x i j = Ok x' /\ length x' = length x /\ Permutation x' x.
Proof.
  intros Hi Hj. unfold swap.
  destruct (nth_error x j) as [xj |] eqn:Ej;
    [| apply nth_error_None in Ej; lia].
  destruct (nth_error x i) as [xi |] eqn:Ei;
    [| apply nth_error_None in Ei; lia].
  eexists. split; [reflexivity |]. split.
  - now rewrite !list_set_length.
  - now apply list_set_swap_perm.
Qed.

Lemma shuffle_from_ok {A} (i : nat) (x : list A) (g : rng) :
  (i < length x)%nat \/ i = 0%nat ->
  exists x' g', shuffle_from i x g = Ok (x', g') /\ Permutation x' x.
Proof.
  revert x g. induction i as [| i IH]; intros x g Hi; simpl.
  - exists x, g. split; [reflexivity | apply Permutation_refl].
  - destruct Hi as [Hi | Hi]; [| discriminate].
    pose proof (random_interval_le (S i) g) as Hj.
    destruct (random_interval (S i) g) as [j g1]. simpl in Hj.
    destruct (swap_ok x (S i) j) as (x1 & Hswap & Hlen & Hperm); [lia | lia |].
    rewrite Hswap.
    destruct (IH x1 g1) as (x' & g' & Hsh & Hperm'); [left; lia |].
    exists x', g'. split; [assumption |].
    eapply perm_trans; eassumption.
Qed.

Lemma returns_shuffle {A} (x : list A) :
  returns (np_random_shuffle x) (fun x' => Permutation x' x).
Proof.
  intros w. unfold np_random_shuffle.
  destruct (shuffle_from_ok (length x - 1) x (w_rng w)) as (x' & g' & Hsh & Hperm).
  { destruct x; simpl; [now right | left; lia]. }
  rewrite Hsh. eexists. eexists. split; [reflexivity | assumption].
Qed.

Lemma count_label_app (l : string) (xs ys : list sample) :
  count_label l (xs ++ ys) = (count_label l xs + count_label l ys)%nat.
Proof. unfold count_label. now rewrite filter_app, length_app. Qed.

Lemma count_label_perm (l : string) (xs ys : list sample) :
  Permutation xs ys -> count_label l xs = count_label l ys.
Proof.
  unfold count_label. induction 1 as [| s xs ys _ IH | s t xs | xs ys zs _ IH1 _ IH2];
    simpl.
  - reflexivity.
  - destruct (has_label l s); simpl; now rewrite IH.
  - destruct (has_label l s), (has_label l t); reflexivity.
  - now rewrite IH1.
Qed.

Lemma count_label_built (S : Z) (L L' : string) (ok : R -> Prop) (i : nat)
      (samples : list sample) :
  built S L ok i samples ->
  count_label L' samples = if String.eqb L' L then i else 0%nat.
Proof.
  intros [<- Hall]. unfold count_label.
  induction Hall as [| s samples Hs _ IH]; simpl.
  - now destruct (String.eqb L' L).
  - destruct Hs as [Hlabel _]. unfold has_label at 1. rewrite Hlabel.
    destruct (String.eqb L' L); simpl; now rewrite IH.
Qed.

Lemma built_labelled (S : Z) (L : string) (ok : R -> Prop) (i : nat)
      (samples : list sample) :
  built S L ok i samples -> Forall (fun s => exists l, s_label s = Some l) samples.
Proof.
  intros [_ Hall]. eapply Forall_impl; [| exact Hall].
  intros s [Hl _]. now exists L.
Qed.

Lemma returns_label_set (samples : list sample) :
  Forall (fun s => exists l, s_label s = Some l) samples ->
  returns (rng := rng) (label_set samples) (fun _ => True).
Proof.
  intros Hall w. unfold label_set.
  assert (Hok : exists ls, map_result get_label samples = Ok ls).
  { induction Hall as [| s samples [l Hl] _ [ls IH]]; simpl.
    - now exists [].
    - unfold get_label at 1. rewrite Hl. simpl. rewrite IH. simpl. now eexists. }
  destruct Hok as [ls ->]. eexists. eexists. split; [reflexivity | exact I].
Qed.

End Shuffle.

Section Dataset.

Import Synth.
Context {rng : Type} {RS : NumpyRandom rng}.

Local Open Scope Z_scope.

(** What [generate_dataset] returns: a shuffle of the six per-class lists. *)
Lemma generate_dataset_returns (self : SyntheticCSIGenerator) (k : Z) :
  0 <= num_subcarriers self ->
  returns (generate_dataset self k)
    (fun d =>
       total_packets (meta d) = py_len (data d) /\
       exists e p m wk si st,
         built (num_subcarriers self) "empty" (drawn any_deviate 0.05) (Z.to_nat k) e /\
         built (num_subcarriers self) "present" (drawn any_deviate 0.2) (Z.to_nat k) p /\
         built (num_subcarriers self) "moving" in_pi_range (Z.to_nat k) m /\
         built (num_subcarriers self) "walking" in_pi_range (Z.to_nat k) wk /\
         built (num_subcarriers self) "sitting" (drawn any_deviate 0.15) (Z.to_nat k) si /\
         built (num_subcarriers self) "standing" (drawn any_deviate 0.22) (Z.to_nat k) st /\
         Permutation (data d) (((((e ++ p) ++ m) ++ wk) ++ si) ++ st)).
Proof.
  intros HS. unfold generate_dataset.
  assert (Hdev : forall g : rng, any_deviate (fst (standard_normal g)))
    by (intros g; exact I).
  eapply returns_bind; [apply returns_print | intros _ _]. cbv zeta.
  eapply returns_bind; [apply returns_print | intros _ _].
  eapply returns_bind;
    [apply (generate_empty_room_returns any_deviate Hdev self HS) | intros e He].
  eapply returns_bind; [apply returns_print | intros _ _].
  eapply returns_bind;
    [apply (generate_person_present_returns any_deviate Hdev self HS) | intros p Hp].
  eapply returns_bind; [apply returns_print | intros _ _].
  eapply returns_bind;
    [apply (generate_moving_returns any_deviate Hdev self HS) | intros m Hm].
  eapply returns_bind; [apply returns_print | intros _ _].
  eapply returns_bind;
    [apply (generate_walking_returns any_deviate Hdev self HS) | intros wk Hwk].
  eapply returns_bind; [apply returns_print | intros _ _].
  eapply returns_bind;
    [apply (generate_sitting_returns any_deviate Hdev self HS) | intros si Hsi].
  eapply returns_bind; [apply returns_print | intros _ _].
  eapply returns_bind;
    [apply (generate_standing_returns any_deviate Hdev self HS) | intros st Hst].
  eapply returns_bind; [apply returns_shuffle | intros x Hperm].
  eapply returns_bind; [apply returns_now | intros now _].
  eapply returns_bind.
  { apply returns_label_set.
    apply (Permutation_Forall (Permutation_sym Hperm)).
    simpl. repeat (apply Forall_app; split); eapply built_labelled; eassumption. }
  intros labels _. apply returns_ret. simpl. split; [reflexivity |].
  exists e, p, m, wk, si, st. repeat (split; [assumption |]). exact Hperm.
Qed.

(** C6.  For every [k >= 0] (and a subcarrier count [S >= 0])
    [generate_dataset k] returns a dataset of exactly [6 * k] samples, [k]
    of them with each of the six class labels; and the shuffle returns a
    permutation of its input, so it keeps the length and every per-label
    count. *)
Theorem generate_dataset_counts (self : SyntheticCSIGenerator) (k : Z) :
  0 <= k -> 0 <= num_subcarriers self ->
  (forall w, exists d w',
      generate_dataset self k w = Ok (d, w') /\
      py_len (data d) = 6 * k /\
      total_packets (meta d) = 6 * k /\
      forall c, Z.of_nat (count_label (class_label c) (data d)) = k) /\
  (forall (x : list sample) w, exists x' w',
      np_random_shuffle x w = Ok (x', w') /\
      Permutation x' x /\
      length x' = length x /\
      forall l, count_label l x' = count_label l x).
Proof.
  intros Hk HS. split.
  - intros w.
    destruct (generate_dataset_returns self k HS w)
      as (d & w' & Hrun & Htotal & e & p & m & wk & si & st &
          He & Hp & Hm & Hwk & Hsi & Hst & Hperm).
    exists d, w'. split; [exact Hrun |].
    assert (Hlen : py_len (data d) = 6 * k).
    { unfold py_len. rewrite (Permutation_length Hperm), !length_app.
      destruct He as [-> _], Hp as [-> _], Hm as [-> _], Hwk as [-> _],
               Hsi as [-> _], Hst as [-> _]. lia. }
    split; [exact Hlen |]. split; [now rewrite Htotal |].
    intros c. rewrite (count_label_perm _ _ _ Hperm), !count_label_app.
    rewrite (count_label_built _ _ _ _ _ _ He), (count_label_built _ _ _ _ _ _ Hp),
      (count_label_built _ _ _ _ _ _ Hm), (count_label_built _ _ _ _ _ _ Hwk),
      (count_label_built _ _ _ _ _ _ Hsi), (count_label_built _ _ _ _ _ _ Hst).
    destruct c; simpl; lia.
  - intros x w. destruct (returns_shuffle x w) as (x' & w' & Hrun & Hperm).
    exists x', w'. split; [exact Hrun |]. split; [exact Hperm |].
    split; [now apply Permutation_length |].
    intros l. now apply count_label_perm.
Qed.

End Dataset.

(* ================================================================== *)
(** * Phase range of generated samples *)
(* ================================================================== *)

Section PhaseRange.

Import Synth.

Lemma pi_gt_3 : (3 < PI)%R.
Proof. pose proof PI2_3_2. lra. Qed.

(** A phase drawn with a spread of at most 0.22 from a deviate within 13
    standard deviations stays inside [[-pi, pi]]. *)
Lemma drawn_in_range (sigma x : R) :
  (0 <= sigma <= 0.22)%R -> drawn bounded_deviate sigma x -> in_pi_range x.
Proof.
  intros Hsigma [z [[Hlo Hhi] ->]]. unfold in_pi_range.
  pose proof pi_gt_3. split; nra.
Qed.

Lemma built_phase_in_range (S : Z) (L : string) (ok : R -> Prop) (i : nat)
      (samples : list sample) :
  (forall x, ok x -> in_pi_range x) ->
  built S L ok i samples -> Forall phase_in_range samples.
Proof.
  intros Hok [_ Hall]. eapply Forall_impl; [| exact Hall].
  intros s (_ & _ & _ & ph & Hph & _ & Hrange).
  unfold phase_in_range. rewrite Hph.
  eapply Forall_impl; [| exact Hrange]. intros x Hx. now apply Hok.
Qed.

(** ** The range of the polar method *)

Lemma ln_2_upper : (ln 2 <= 13 / 16)%R.
Proof.
  assert (He : (77 / 64 <= exp (13 / 64))%R).
  { pose proof (exp_ineq1_le (13 / 64)). lra. }
  assert (H2 : (2 < exp (13 / 16))%R).
  { replace (13 / 16)%R with (13 / 64 + 13 / 64 + (13 / 64 + 13 / 64))%R by lra.
    rewrite !exp_plus.
    set (e := exp (13 / 64)) in *.
    assert (Hee : (5929 / 4096 <= e * e)%R) by nra.
    nra. }
  apply Rlt_le. rewrite <- (ln_exp (13 / 16)).
  apply ln_increasing; lra.
Qed.

Lemma gauss_bound_upper : (gauss_bound <= 13)%R.
Proof.
  unfold gauss_bound. pose proof ln_2_upper.
  replace 13%R with (sqrt (13 * 13)) by (apply sqrt_square; lra).
  apply sqrt_le_1_alt. lra.
Qed.

Lemma gauss_bound_lower : (2 <= gauss_bound)%R.
Proof.
  unfold gauss_bound. pose proof ln_lt_2.
  replace 2%R with (sqrt (2 * 2)) at 1 by (apply sqrt_square; lra).
  apply sqrt_le_1_alt. lra.
Qed.

(** The squares of two grid points that are not both zero add up to at
    least [2^-104]. *)
Lemma polar_grid (k1 k2 : Z) :
  let x1 := (2 * uniform_double k1 - 1)%R in
  let x2 := (2 * uniform_double k2 - 1)%R in
  (x1 * x1 + x2 * x2 <> 0 -> / 2 ^ 104 <= x1 * x1 + x2 * x2)%R.
Proof.
  intros x1 x2 Hne.
  set (i := (k1 - 2 ^ 52)%Z). set (j := (k2 - 2 ^ 52)%Z).
  assert (Hp : (0 < 2 ^ 52)%R) by (apply pow_lt; lra).
  assert (Hx1 : x1 = (IZR i / 2 ^ 52)%R).
  { unfold x1, uniform_double, i. rewrite minus_IZR.
    replace (IZR (2 ^ 52)) with (2 ^ 52)%R
      by (rewrite (pow_IZR 2 52); reflexivity).
    replace (2 ^ 53)%R with (2 * 2 ^ 52)%R by (simpl; lra).
    field; lra. }
  assert (Hx2 : x2 = (IZR j / 2 ^ 52)%R).
  { unfold x2, uniform_double, j. rewrite minus_IZR.
    replace (IZR (2 ^ 52)) with (2 ^ 52)%R
      by (rewrite (pow_IZR 2 52); reflexivity).
    replace (2 ^ 53)%R with (2 * 2 ^ 52)%R by (simpl; lra).
    field; lra. }
  assert (Hsum : (x1 * x1 + x2 * x2 = IZR (i * i + j * j) / 2 ^ 104)%R).
  { rewrite Hx1, Hx2, plus_IZR, !mult_IZR.
    replace (2 ^ 104)%R with (2 ^ 52 * 2 ^ 52)%R
      by (rewrite <- pow_add; reflexivity).
    field; lra. }
  assert (Hint : (1 <= i * i + j * j)%Z).
  { assert (Hnz : (i * i + j * j <> 0)%Z).
    { intros Hz. apply Hne. rewrite Hsum, Hz. unfold Rdiv. apply Rmult_0_l. }
    nia. }
  rewrite Hsum. apply IZR_le in Hint.
  assert (Hq : (0 < / 2 ^ 104)%R) by (apply Rinv_0_lt_compat, pow_lt; lra).
  unfold Rdiv. nra.
Qed.

(** Both deviates of an accepted pair stay within [gauss_bound]. *)
Lemma polar_gauss_bounded (x1 x2 : R) :
  (/ 2 ^ 104 <= x1 * x1 + x2 * x2 < 1)%R ->
  (Rabs (polar_gauss x1 x2) <= gauss_bound)%R.
Proof.
  intros [Hlo Hhi]. unfold polar_gauss, gauss_bound.
  set (r := (x1 * x1 + x2 * x2)%R) in *.
  assert (Hq : (0 < / 2 ^ 104)%R) by (apply Rinv_0_lt_compat, pow_lt; lra).
  assert (Hr : (0 < r)%R) by lra.
  assert (Hln_hi : (ln r < 0)%R).
  { rewrite <- ln_1. apply ln_increasing; lra. }
  assert (Hln_lo : (- (104 * ln 2) <= ln r)%R).
  { replace (- (104 * ln 2))%R with (ln (/ 2 ^ 104)).
    - destruct Hlo as [Hlt | Heq]; [| rewrite Heq; lra].
      apply Rlt_le, ln_increasing; assumption.
    - rewrite ln_Rinv by (apply pow_lt; lra).
      rewrite ln_pow by lra. f_equal. f_equal.
      change 104%nat with (Z.to_nat 104). rewrite INR_IZR_INZ.
      reflexivity. }
  assert (HA : (0 <= -2 * ln r / r)%R).
  { apply Rmult_le_pos; [lra | apply Rlt_le, Rinv_0_lt_compat, Hr]. }
  rewrite Rabs_mult, (Rabs_pos_eq _ (sqrt_pos _)).
  rewrite <- sqrt_Rsqr_abs, <- sqrt_mult by (try apply Rle_0_sqr; assumption).
  apply sqrt_le_1_alt.
  assert (Hx2 : (Rsqr x2 <= r)%R) by (unfold Rsqr, r; nra).
  assert (HAr : (-2 * ln r / r * r = -2 * ln r)%R) by (field; lra).
  pose proof (Rle_0_sqr x2).
  nra.
Qed.

(** The polar method on the double grid: both deviates of every accepted
    pair are within [gauss_bound]. *)
Lemma legacy_gauss_range (k1 k2 : Z) :
  let x1 := (2 * uniform_double k1 - 1)%R in
  let x2 := (2 * uniform_double k2 - 1)%R in
  polar_accepted x1 x2 ->
  (Rabs (polar_gauss x1 x2) <= gauss_bound /\
   Rabs (polar_gauss x2 x1) <= gauss_bound)%R.
Proof.
  intros x1 x2 [Hne Hlt].
  pose proof (polar_grid k1 k2 Hne) as Hlo. fold x1 x2 in Hlo.
  split; apply polar_gauss_bounded; [lra |].
  rewrite (Rplus_comm (x2 * x2)). lra.
Qed.

Context {rng : Type} {RS : NumpyRandom rng} {LG : LegacyGauss rng}.

Lemma legacy_bounded_deviate (g : rng) : bounded_deviate (fst (standard_normal g)).
Proof.
  pose proof (standard_normal_bound g) as Hb.
  pose proof gauss_bound_upper.
  unfold bounded_deviate. revert Hb. unfold Rabs.
  destruct (Rcase_abs (fst (standard_normal g))); lra.
Qed.

(** C9.  For [S >= 0], every sample the generator produces, for each of
    the six classes, every count and every stream of NumPy's legacy
    generator, has all its phase values in [[-pi, pi]].  The [moving] and
    [walking] generators clip the phase to that interval; the other four
    draw each phase value as [0 + sigma * z] with [sigma <= 0.22], and a
    deviate [z] of the polar method never exceeds
    [sqrt(2 * 104 * ln 2) < 13] in absolute value, so that
    [|sigma * z| < 0.22 * 13 < pi]. *)
Theorem generated_phase_range (self : SyntheticCSIGenerator) (count : Z) :
  (0 <= num_subcarriers self)%Z ->
  forall c w, exists samples w',
    generate self c count w = Ok (samples, w') /\
    Forall phase_in_range samples.
Proof.
  intros HS c w.
  assert (Hany : forall g : rng, any_deviate (fst (standard_normal g)))
    by (intros g; exact I).
  pose proof legacy_bounded_deviate as Hdev.
  destruct c; simpl.
  - destruct (generate_empty_room_returns _ Hdev self HS count w)
      as (samples & w' & Hrun & Hb).
    exists samples, w'. split; [exact Hrun |].
    eapply built_phase_in_range; [| exact Hb].
    intros x Hx. eapply drawn_in_range; [| exact Hx]. split; lra.
  - destruct (generate_person_present_returns _ Hdev self HS count w)
      as (samples & w' & Hrun & Hb).
    exists samples, w'. split; [exact Hrun |].
    eapply built_phase_in_range; [| exact Hb].
    intros x Hx. eapply drawn_in_range; [| exact Hx]. split; lra.
  - destruct (generate_moving_returns any_deviate Hany self HS count w)
      as (samples & w' & Hrun & Hb).
    exists samples, w'. split; [exact Hrun |].
    now apply (built_phase_in_range _ _ _ _ _ (fun x H => H) Hb).
  - destruct (generate_walking_returns any_deviate Hany self HS count w)
      as (samples & w' & Hrun & Hb).
    exists samples, w'. split; [exact Hrun |].
    now apply (built_phase_in_range _ _ _ _ _ (fun x H => H) Hb).
  - destruct (generate_sitting_returns _ Hdev self HS count w)
      as (samples & w' & Hrun & Hb).
    exists samples, w'. split; [exact Hrun |].
    eapply built_phase_in_range; [| exact Hb].
    intros x Hx. eapply drawn_in_range; [| exact Hx]. split; lra.
  - destruct (generate_standing_returns _ Hdev self HS count w)
      as (samples & w' & Hrun & Hb).
    exists samples, w'. split; [exact Hrun |].
    eapply built_phase_in_range; [| exact Hb].
    intros x Hx. eapply drawn_in_range; [| exact Hx]. split; lra.
Qed.

End PhaseRange.

Section PhaseRangeExamples.

Import Synth.

(** The swinging stream is within the range of the polar method. *)
Lemma swing_stream_legacy : LegacyGauss (counter_rng swing_stream).
Proof.
  constructor. intros g. simpl. unfold swing_stream.
  pose proof gauss_bound_lower.
  destruct (Nat.even g).
  - rewrite Rabs_pos_eq; lra.
  - rewrite Rabs_left; lra.
Qed.

Lemma generated_phase_range_witness :
  exists samples w',
    generate small_generator Standing 2 (world0 swing_stream) = Ok (samples, w') /\
    Forall phase_in_range samples.
Proof.
  apply (generated_phase_range (rng := counter_rng swing_stream)
           (LG := swing_stream_legacy) small_generator 2).
  simpl. lia.
Defined.

End PhaseRangeExamples.

Section DatasetExamples.

Import Synth.
Local Open Scope Z_scope.

Lemma generate_dataset_counts_witness :
  exists d w',
    generate_dataset small_generator 2 (world0 calm_stream) = Ok (d, w') /\
    py_len (data d) = 12 /\
    Z.of_nat (count_label "walking" (data d)) = 2.
Proof.
  destruct (generate_dataset_counts (rng := counter_rng calm_stream)
              small_generator 2) as [Hrun _].
  - lia.
  - simpl. lia.
  - destruct (Hrun (world0 calm_stream)) as (d & w' & Hd & Hlen & _ & Hcount).
    exists d, w'. split; [exact Hd |]. split; [exact Hlen |].
    exact (Hcount Walking).
Defined.

End DatasetExamples.

(* ================================================================== *)
(** * Determinism in the pseudo-random stream *)
(* ================================================================== *)

Section Determinism.

Import Synth.
Context {rng : Type} {RS : NumpyRandom rng}.

Lemma determined_ret {A} (a : A) : stream_determined (rng := rng) (ret a).
Proof. intros w1 w2 Hw. simpl. now split. Qed.

Lemma determined_bind {A B} (m : M rng A) (k : A -> M rng B) :
  stream_determined m -> (forall a, stream_determined (k a)) ->
  stream_determined (bind m k).
Proof.
  intros Hm Hk w1 w2 Hw. unfold bind.
  specialize (Hm w1 w2 Hw). unfold same_outcome in Hm.
  destruct (m w1) as [[a1 w1'] | e1], (m w2) as [[a2 w2'] | e2];
    try contradiction.
  - destruct Hm as [<- Hw']. now apply Hk.
  - exact Hm.
Qed.

Lemma determined_normal (loc scale : R) :
  stream_determined (np_random_normal loc scale).
Proof.
  intros w1 w2 Hw. unfold np_random_normal, same_stream in *. rewrite Hw.
  destruct (Rlt_dec scale 0); [reflexivity |].
  destruct (standard_normal (w_rng w2)) as [z g]. simpl. now split.
Qed.

Lemma determined_normal_vec (loc scale : R) (size : Z) :
  stream_determined (np_random_normal_vec loc scale size).
Proof.
  intros w1 w2 Hw. unfold np_random_normal_vec, same_stream in *. rewrite Hw.
  destruct (Rlt_dec scale 0); [reflexivity |].
  destruct (size <? 0)%Z; [reflexivity |].
  destruct (normal_draws loc scale (Z.to_nat size) (w_rng w2)) as [v g].
  simpl. now split.
Qed.

Lemma determined_randint (low high : Z) :
  stream_determined (np_random_randint low high).
Proof.
  intros w1 w2 Hw. unfold np_random_randint, same_stream in *. rewrite Hw.
  destruct (high <=? low)%Z; [reflexivity |].
  destruct (randint_draw low high (w_rng w2)) as [t g]. simpl. now split.
Qed.

Lemma determined_for_each {A B} (body : A -> B -> M rng B) (l : list A) :
  (forall x b, stream_determined (body x b)) ->
  forall acc, stream_determined (for_each l body acc).
Proof.
  intros Hbody. induction l as [| x l IH]; intros acc; simpl.
  - apply determined_ret.
  - apply determined_bind; [apply Hbody | exact IH].
Qed.

(** Splits a loop body into its [np.random] calls. *)
Ltac determined :=
  repeat first
    [ apply determined_ret
    | apply determined_normal
    | apply determined_normal_vec
    | apply determined_randint
    | apply determined_bind; [| intros ?]
    | apply determined_for_each; intros ? ?
    | match goal with
      | |- stream_determined (let (_, _) := ?p in _) => destruct p
      end ].

Lemma determined_generate (self : SyntheticCSIGenerator) (c : pose_class) (count : Z) :
  stream_determined (generate self c count).
Proof.
  destruct c; simpl;
    unfold generate_empty_room, generate_person_present, generate_moving,
           generate_walking, generate_sitting, generate_standing;
    determined.
Qed.

Lemma determined_run_calls (self : SyntheticCSIGenerator)
      (calls : list (pose_class * Z)) :
  stream_determined (run_calls self calls).
Proof.
  induction calls as [| [c count] calls IH]; simpl.
  - apply determined_ret.
  - apply determined_bind; [apply determined_generate | intros out].
    apply determined_bind; [exact IH | intros outs]. apply determined_ret.
Qed.

(** C7.  The generators are deterministic in the pseudo-random stream: two
    runs of the same generator, with the same count and subcarrier count,
    from worlds that hold the same pseudo-random state (whatever their
    clocks and outputs) return the same samples, hence the same amplitude,
    phase and rssi sequences, and leave the same pseudo-random state; and
    two sessions that seed the stream with the same seed and make the same
    calls in the same order return the same samples. *)
Theorem generators_deterministic (self : SyntheticCSIGenerator) :
  (forall c count (g : rng) clock1 out1 clock2 out2,
     same_outcome (generate self c count (mk_world g clock1 out1))
                  (generate self c count (mk_world g clock2 out2))) /\
  (forall seed calls (w1 w2 : world rng),
     same_outcome (seeded_session self seed calls w1)
                  (seeded_session self seed calls w2)).
Proof.
  split.
  - intros c count g clock1 out1 clock2 out2.
    apply determined_generate. reflexivity.
  - intros seed calls w1 w2. unfold seeded_session, bind, np_random_seed.
    apply determined_run_calls. reflexivity.
Qed.

End Determinism.

(* ================================================================== *)
(** * Loading a dataset and preparing the training data *)
(* ================================================================== *)

Section PipelineFacts.

Import Train Pipeline.
Local Open Scope Z_scope.

Lemma select_labelled_filter (data : list sample) :
  select_labelled data = (filter kept data, map label_of (filter kept data)).
Proof.
  unfold select_labelled.
  induction data as [| s data IH] using rev_ind; [reflexivity |].
  rewrite fold_left_snoc, IH, filter_app, map_app. cbv beta.
  assert (Hk : kept s = match s_label s, s_amp s with
                        | Some _, Some _ => true
                        | _, _ => false
                        end) by reflexivity.
  assert (Hl : label_of s = match s_label s with
                            | Some l => l
                            | None => EmptyString
                            end) by reflexivity.
  cbn [filter fst snd]. rewrite Hk.
  destruct (s_label s) as [l |], (s_amp s) as [a |]; cbn [map app];
    rewrite ?Hl, ?app_nil_r; reflexivity.
Qed.

Lemma kept_amp (s : sample) : kept s = true -> exists amp, s_amp s = Some amp.
Proof.
  unfold kept. destruct (s_label s), (s_amp s) as [a |]; try discriminate.
  now exists a.
Qed.

Lemma filter_idempotent {A} (f : A -> bool) (l : list A) :
  filter f (filter f l) = filter f l.
Proof.
  induction l as [| a l IH]; [reflexivity |].
  simpl. destruct (f a) eqn:E; simpl; [rewrite E |]; now rewrite ?IH.
Qed.

(** With an amplitude present, [parse_sample] can only fail in [np.pad]. *)
Lemma parse_sample_raises (self : CSIDataPreprocessor) (s : sample) (e : py_error) :
  (exists amp, s_amp s = Some amp) ->
  parse_sample self s = Raise e ->
  e = ValueError "index can't contain negative values".
Proof.
  intros [amp Hamp]. unfold parse_sample, resize_pair, np_pad_right. rewrite Hamp.
  repeat match goal with
         | |- context [if ?b then _ else _] => destruct b
         end; simpl; congruence.
Qed.

Lemma map_result_raises {A B} (f : A -> result B) (P : py_error -> Prop)
      (l : list A) (e : py_error) :
  (forall a e', In a l -> f a = Raise e' -> P e') ->
  map_result f l = Raise e -> P e.
Proof.
  induction l as [| a l IH]; intros Hall; simpl; [discriminate |].
  destruct (f a) as [b |] eqn:Ea; simpl.
  - destruct (map_result f l) as [bs |] eqn:El; simpl; [discriminate |].
    intros Heq. injection Heq as <-. apply IH; [| reflexivity].
    intros a' e' Hin. apply Hall. now right.
  - intros Heq. injection Heq as <-. apply (Hall a); [now left | assumption].
Qed.

Lemma np_array2_raises (rows : list vec) (e : py_error) :
  np_array2 rows = Raise e -> is_value_error e.
Proof.
  unfold np_array2. destruct rows as [| r rows]; [discriminate |].
  destruct (forallb _ _); [discriminate |].
  intros Heq. injection Heq as <-. unfold is_value_error. eexists. reflexivity.
Qed.

Lemma np_array3_raises (X : list array2) (e : py_error) :
  np_array3 X = Raise e -> is_value_error e.
Proof.
  unfold np_array3. destruct X as [| a X]; [discriminate |].
  destruct (forallb _ _); [discriminate |].
  intros Heq. injection Heq as <-. unfold is_value_error. eexists. reflexivity.
Qed.

Lemma np_array3_ok (X X' : list array2) :
  np_array3 X = Ok X' ->
  X' = X /\ forall a b, In a X -> In b X -> a2_shape a = a2_shape b.
Proof.
  unfold np_array3. destruct X as [| a0 X]; [intros H; injection H as <-; now split |].
  destruct (forallb _ _) eqn:E; [| discriminate].
  intros H. injection H as <-. split; [reflexivity |].
  rewrite forallb_forall in E.
  assert (Hshape : forall a, In a (a0 :: X) -> a2_shape a = a2_shape a0).
  { intros a Ha. specialize (E a Ha). unfold shape_eqb in E.
    apply andb_prop in E. destruct E as [E1 E2].
    apply Nat.eqb_eq in E1. apply Nat.eqb_eq in E2.
    destruct (a2_shape a), (a2_shape a0). simpl in *. congruence. }
  intros a b Ha Hb. now rewrite (Hshape a Ha), (Hshape b Hb).
Qed.

Lemma group_windows_raises (self : CSIDataPreprocessor) (k : string)
      (g : list sample) (e : py_error) :
  Forall (fun s => exists amp, s_amp s = Some amp) g ->
  group_windows self k g = Raise e -> is_value_error e.
Proof.
  intros Hall. unfold group_windows, res_bind.
  destruct (map_result (parse_sample self) g) as [rows |] eqn:E.
  - destruct (np_array2 rows) as [features |] eqn:E2; [discriminate |].
    intros Heq. injection Heq as <-. now apply np_array2_raises in E2.
  - intros Heq. injection Heq as <-.
    apply (map_result_raises _ is_value_error _ _) in E; [assumption |].
    intros s e' Hin Hs. rewrite Forall_forall in Hall.
    apply (parse_sample_raises self s e' (Hall s Hin)) in Hs.
    rewrite Hs. unfold is_value_error. eexists. reflexivity.
Qed.

Lemma all_windows_raises (self : CSIDataPreprocessor)
      (groups : list (string * list sample)) (e : py_error) :
  (forall k g, In (k, g) groups ->
     Forall (fun s => exists amp, s_amp s = Some amp) g) ->
  forall X y, all_windows self groups X y = Raise e -> is_value_error e.
Proof.
  induction groups as [| [k g] groups IH]; intros Hall X y; simpl;
    [discriminate |].
  destruct (group_windows self k g) as [[ws ids] |] eqn:E; unfold res_bind.
  - apply IH. intros k' g' Hin. apply (Hall k' g'). now right.
  - intros Heq. injection Heq as <-.
    apply (group_windows_raises self k g); [| assumption].
    apply (Hall k g). now left.
Qed.

(** The only exception [create_windows] can raise on samples that all have
    an amplitude is a [ValueError]. *)
Lemma create_windows_raises (self : CSIDataPreprocessor)
      (samples : list sample) (labels : list string) (e : py_error) :
  Forall (fun s => exists amp, s_amp s = Some amp) samples ->
  create_windows self samples labels = Raise e -> is_value_error e.
Proof.
  intros Hall. unfold create_windows, res_bind.
  destruct (all_windows self (group_by_label samples labels) [] [])
    as [[X y] |] eqn:E.
  - destruct (np_array3 X) eqn:E3; [discriminate |].
    intros Heq. injection Heq as <-. now apply np_array3_raises in E3.
  - intros Heq. injection Heq as <-.
    eapply all_windows_raises; [| exact E].
    intros k g Hin. rewrite group_by_label_grouped in Hin.
    apply in_map_iff in Hin. destruct Hin as [k' [Heq _]].
    injection Heq as -> <-.
    apply Forall_forall. intros s Hs. apply with_label_in in Hs.
    apply in_combine_l in Hs. rewrite Forall_forall in Hall. now apply Hall.
Qed.

(** X1.  [load_dataset] keeps exactly the records that have both a label
    and an amplitude, in their order, each with its own label; the records
    it drops never influence the result; and since every kept record has
    an amplitude it never raises [KeyError]: the only exception is a
    [ValueError]. *)
Theorem load_dataset_selects (self : CSIDataPreprocessor) (data : list sample) :
  load_dataset self data =
    create_windows self (filter kept data) (map label_of (filter kept data)) /\
  load_dataset self data = load_dataset self (filter kept data) /\
  (forall e, load_dataset self data = Raise e -> exists msg, e = ValueError msg).
Proof.
  assert (H1 : forall d, load_dataset self d =
            create_windows self (filter kept d) (map label_of (filter kept d))).
  { intros d. unfold load_dataset. now rewrite select_labelled_filter. }
  split; [apply H1 |]. split.
  - now rewrite (H1 (filter kept data)), filter_idempotent, H1.
  - intros e. rewrite H1. apply create_windows_raises.
    apply Forall_forall. intros s Hs. apply filter_In in Hs.
    apply kept_amp. tauto.
Qed.

Lemma load_dataset_selects_witness :
  load_dataset (mk_preprocessor 1 2 4) [long_phase_labelled]
  = Raise (ValueError "index can't contain negative values") /\
  exists msg, ValueError "index can't contain negative values" = ValueError msg.
Proof.
  destruct (load_dataset_selects (mk_preprocessor 1 2 4) [long_phase_labelled])
    as (_ & _ & Hraise).
  split; [reflexivity |]. apply Hraise. reflexivity.
Defined.

Lemma all_windows_lengths (self : CSIDataPreprocessor)
      (groups : list (string * list sample)) :
  forall X0 y0 X y,
  all_windows self groups X0 y0 = Ok (X, y) ->
  length X0 = length y0 -> length X = length y.
Proof.
  induction groups as [| [k g] groups IH]; intros X0 y0 X y; simpl.
  - intros Heq Hlen. injection Heq as <- <-. exact Hlen.
  - destruct (group_windows self k g) as [[ws ids] |] eqn:E; [| discriminate].
    unfold res_bind. intros Hall Hlen. apply (IH _ _ _ _ Hall).
    apply group_windows_ids in E. subst ids.
    rewrite !length_app, repeat_length. lia.
Qed.

Lemma label_id_range (l : string) : 0 <= label_id l <= 5.
Proof.
  unfold label_id, label_map. simpl.
  repeat match goal with
         | |- context [String.eqb ?a ?b] => destruct (String.eqb a b)
         end; lia.
Qed.

(** Every class id returned by [create_windows] is one of [0 .. 5]. *)
Lemma create_windows_id_range (self : CSIDataPreprocessor)
      (samples : list sample) (labels : list string)
      (X : list array2) (y : list Z) :
  create_windows self samples labels = Ok (X, y) ->
  Forall (fun id => 0 <= id <= 5) y.
Proof.
  unfold create_windows, res_bind.
  destruct (all_windows self (group_by_label samples labels) [] [])
    as [[X0 y0] |] eqn:E; [| discriminate].
  destruct (np_array3 X0); [| discriminate].
  intros Heq. injection Heq as <- <-.
  eapply all_windows_ids; [| constructor | exact E].
  intros k g _. apply label_id_range.
Qed.

Lemma create_windows_lengths (self : CSIDataPreprocessor)
      (samples : list sample) (labels : list string)
      (X : list array2) (y : list Z) :
  create_windows self samples labels = Ok (X, y) ->
  length X = length y /\
  (forall a b, In a X -> In b X -> a2_shape a = a2_shape b).
Proof.
  unfold create_windows, res_bind.
  destruct (all_windows self (group_by_label samples labels) [] [])
    as [[X0 y0] |] eqn:E; [| discriminate].
  destruct (np_array3 X0) as [X' |] eqn:E3; [| discriminate].
  intros Heq. injection Heq as <- <-.
  apply np_array3_ok in E3. destruct E3 as [-> Hshape].
  split; [| exact Hshape].
  now apply (all_windows_lengths self _ [] [] X0 y0 E).
Qed.

(** X2.  Whatever the input, when [create_windows] returns, the tensor and
    the label vector are aligned (one class id per window), all windows
    have one and the same shape, and every class id is one of [0 .. 5]. *)
Theorem create_windows_aligned (self : CSIDataPreprocessor)
        (samples : list sample) (labels : list string)
        (X : list array2) (y : list Z) :
  create_windows self samples labels = Ok (X, y) ->
  length X = length y /\
  (forall a b, In a X -> In b X -> a2_shape a = a2_shape b) /\
  Forall (fun id => 0 <= id <= 5) y.
Proof.
  intros Hcw. destruct (create_windows_lengths _ _ _ _ _ Hcw) as [Hlen Hshape].
  split; [exact Hlen |]. split; [exact Hshape |].
  now apply create_windows_id_range in Hcw.
Qed.

Lemma create_windows_aligned_witness :
  length [mk_array2 0 [[]]; mk_array2 0 [[]]] = length [3; 0] /\
  (forall a b, In a [mk_array2 0 [[]]; mk_array2 0 [[]]] ->
               In b [mk_array2 0 [[]]; mk_array2 0 [[]]] ->
               a2_shape a = a2_shape b) /\
  Forall (fun id => 0 <= id <= 5) [3; 0].
Proof.
  apply (create_windows_aligned (mk_preprocessor 1 0 0)
           [raw_sample [] None; raw_sample [] None]
           ["walking"%string; "jumping"%string]).
  reflexivity.
Defined.

(** ** The split of [main] *)








Lemma insert_Z_length (x : Z) (l : list Z) :
  length (insert_Z x l) = S (length l).
Proof.
  induction l as [| y l IH]; simpl; [reflexivity |].
  destruct (x <=? y); simpl; now rewrite ?IH.
Qed.

Lemma np_unique_length (y : list Z) :
  length (np_unique y) = length (nodup Z.eq_dec y).
Proof.
  unfold np_unique. induction (nodup Z.eq_dec y) as [| x l IH]; simpl;
    [reflexivity | now rewrite insert_Z_length, IH].
Qed.

(** Distinct values that avoid 0 and stay below their own number do not
    exist: there are fewer than [n] values in [1 .. n - 1]. *)
Lemma distinct_positive_exceed (u : list Z) :
  NoDup u -> Forall (fun id => 1 <= id) u -> u <> [] ->
  Exists (fun id => Z.of_nat (length u) <= id) u.
Proof.
  intros Hnd Hpos Hne.
  destruct (Forall_Exists_dec (fun id => id < Z.of_nat (length u))
              (fun id => Z_lt_dec id (Z.of_nat (length u))) u)
    as [Hall | Hex].
  - exfalso.
    assert (Hincl : incl u (map Z.of_nat (seq 1 (length u - 1)))).
    { intros id Hin. rewrite Forall_forall in Hall, Hpos.
      specialize (Hall id Hin). specialize (Hpos id Hin).
      apply in_map_iff. exists (Z.to_nat id). split; [lia |].
      apply in_seq. lia. }
    apply (NoDup_incl_length Hnd) in Hincl.
    rewrite length_map, length_seq in Hincl.
    destruct u; [contradiction | simpl in Hincl; lia].
  - eapply Exists_impl; [| exact Hex]. intros id Hid. simpl in Hid. lia.
Qed.

Lemma load_dataset_aligned (self : CSIDataPreprocessor) (data : list sample)
      (X : list array2) (y : list Z) :
  load_dataset self data = Ok (X, y) ->
  length X = length y /\ Forall (fun id => 0 <= id <= 5) y.
Proof.
  unfold load_dataset. destruct (select_labelled data) as [samples labels].
  intros Hcw. split.
  - now apply create_windows_lengths in Hcw.
  - now apply create_windows_id_range in Hcw.
Qed.



Section MainFacts.

Context {F : Float64}.





Lemma main_prepare_ready (window_size num_subcarriers : Z) (train_split : R)
      (data : list sample) (X : list array2) (y : list Z) :
  load_dataset (mk_preprocessor window_size num_subcarriers (num_subcarriers * 2))
               data = Ok (X, y) ->
  X <> [] ->
  main_prepare window_size num_subcarriers train_split data =
  Ready (mk_training_data
           (py_slice_to X (py_int (fl_mul (IZR (py_len X)) train_split)))
           (py_slice_from X (py_int (fl_mul (IZR (py_len X)) train_split)))
           (py_slice_to y (py_int (fl_mul (IZR (py_len X)) train_split)))
           (py_slice_from y (py_int (fl_mul (IZR (py_len X)) train_split)))
           (py_len (np_unique y))).
Proof.
  intros Hload Hne. unfold main_prepare, init. rewrite Hload.
  destruct (py_len X =? 0) eqn:E; [| reflexivity].
  apply Z.eqb_eq in E. unfold py_len in E.
  destruct X; [contradiction | discriminate].
Qed.


(** X4.  The number of classes [main] passes on is the number of distinct
    class ids among the windows.  It lies between 1 and 6, and every id
    lies in [0 .. 5]; but the ids need not be below it: when no window has
    id 0 (no [empty] and no unknown label in the data), some window carries
    an id that is at least [num_classes]. *)
Theorem main_num_classes (window_size num_subcarriers : Z) (train_split : R)
        (data : list sample) (X : list array2) (y : list Z) :
  load_dataset (mk_preprocessor window_size num_subcarriers (num_subcarriers * 2))
               data = Ok (X, y) ->
  X <> [] ->
  exists d,
    main_prepare window_size num_subcarriers train_split data = Ready d /\
    num_classes d = Z.of_nat (length (nodup Z.eq_dec y)) /\
    1 <= num_classes d <= 6 /\
    Forall (fun id => 0 <= id <= 5) y /\
    (~ In 0 y -> exists id, In id y /\ num_classes d <= id).
Proof.
  intros Hload Hne.
  rewrite (main_prepare_ready _ _ train_split data X y Hload Hne).
  eexists. split; [reflexivity |]. cbn [num_classes].
  destruct (load_dataset_aligned _ data X y Hload) as [Hlen Hrange].
  unfold py_len. rewrite np_unique_length.
  set (u := nodup Z.eq_dec y).
  assert (Hnd : NoDup u) by apply NoDup_nodup.
  assert (Hu : forall id, In id u <-> In id y) by (intros id; apply nodup_In).
  assert (Hune : u <> []).
  { destruct y as [| id y']; [destruct X; [contradiction | discriminate] |].
    intros Hnil. assert (In id u) as Hin by (apply Hu; now left).
    now rewrite Hnil in Hin. }
  split; [reflexivity |]. split.
  - split.
    + destruct u; [contradiction | simpl; lia].
    + assert (Hincl : incl u [0; 1; 2; 3; 4; 5]).
      { intros id Hin. apply Hu in Hin. rewrite Forall_forall in Hrange.
        specialize (Hrange id Hin). simpl.
        assert (id = 0 \/ id = 1 \/ id = 2 \/ id = 3 \/ id = 4 \/ id = 5) by lia.
        intuition. }
      apply (NoDup_incl_length Hnd) in Hincl. simpl in Hincl. lia.
  - split; [exact Hrange |].
    intros Hzero.
    assert (Hpos : Forall (fun id => 1 <= id) u).
    { apply Forall_forall. intros id Hin. apply Hu in Hin.
      rewrite Forall_forall in Hrange. specialize (Hrange id Hin).
      assert (id <> 0) by (intros ->; contradiction). lia. }
    pose proof (distinct_positive_exceed u Hnd Hpos Hune) as Hex.
    apply Exists_exists in Hex. destruct Hex as [id [Hin Hge]].
    exists id. split; [now apply Hu | exact Hge].
Qed.

End MainFacts.


Lemma main_num_classes_witness :
  exists d,
    main_prepare 1 2 1 [labelled_sample "walking" [1%R; 2%R] None;
                        labelled_sample "sitting" [3%R; 5%R] None] = Ready d /\
    num_classes d = 2 /\
    exists id, In id [3; 4] /\ num_classes d <= id.
Proof.
  edestruct (main_num_classes (F := exact_arithmetic) 1 2 1
               [labelled_sample "walking" [1%R; 2%R] None;
                labelled_sample "sitting" [3%R; 5%R] None])
    as (d & Hd & Hn & _ & _ & Hex).
  - reflexivity.
  - discriminate.
  - exists d. split; [exact Hd |]. split; [exact Hn |].
    apply Hex. simpl. intros [H | [H | []]]; discriminate.
Defined.

End PipelineFacts.

(* ================================================================== *)
(** * From the generator to the windows *)
(* ================================================================== *)

Section EndToEnd.

Import Train Pipeline Synth.
Local Open Scope Z_scope.



















End EndToEnd.

Section EndToEndExamples.

Import Train Pipeline Synth.
Local Open Scope Z_scope.


End EndToEndExamples.

(* ================================================================== *)
(** * The reports of tools/analyze_csi.py *)
(* ================================================================== *)

Section Ordering.

Import Report.

Lemma ascii_compare_refl (a : Ascii.ascii) : Ascii.compare a a = Eq.
Proof. unfold Ascii.compare. apply N.compare_refl. Qed.

Lemma string_compare_lt_trans (s1 s2 s3 : string) :
  String.compare s1 s2 = Lt -> String.compare s2 s3 = Lt ->
  String.compare s1 s3 = Lt.
Proof.
  revert s2 s3.
  induction s1 as [| a s1 IH]; intros [| b s2] [| c s3]; simpl;
    try discriminate; try reflexivity.
  destruct (Ascii.compare a b) eqn:E1; try discriminate;
    destruct (Ascii.compare b c) eqn:E2; try discriminate.
  - apply Ascii.compare_eq_iff in E1, E2. subst.
    rewrite ascii_compare_refl. apply IH.
  - apply Ascii.compare_eq_iff in E1. subst. now rewrite E2.
  - apply Ascii.compare_eq_iff in E2. subst. now rewrite E1.
  - intros _ _. unfold Ascii.compare in *.
    rewrite N.compare_lt_iff in *.
    assert (H : (Ascii.N_of_ascii a < Ascii.N_of_ascii c)%N) by lia.
    apply N.compare_lt_iff in H. now rewrite H.
Qed.

Lemma string_leb_trans (a b c : string) :
  String.leb a b = true -> String.leb b c = true -> String.leb a c = true.
Proof.
  unfold String.leb.
  destruct (String.compare a b) eqn:E1; try discriminate;
    destruct (String.compare b c) eqn:E2; try discriminate; intros _ _.
  - apply String.compare_eq_iff in E1. subst. now rewrite E2.
  - apply String.compare_eq_iff in E1. subst. now rewrite E2.
  - apply String.compare_eq_iff in E2. subst. now rewrite E1.
  - now rewrite (string_compare_lt_trans _ _ _ E1 E2).
Qed.

Lemma insert_item_perm {V} (kv : string * V) (l : list (string * V)) :
  Permutation (insert_item kv l) (kv :: l).
Proof.
  induction l as [| x l IH]; simpl; [reflexivity |].
  destruct (String.leb (fst kv) (fst x)); [reflexivity |].
  rewrite IH. apply perm_swap.
Qed.

Lemma sorted_items_perm {V} (d : list (string * V)) :
  Permutation (sorted_items d) d.
Proof.
  induction d as [| kv d IH]; simpl; [reflexivity |].
  rewrite insert_item_perm. now constructor.
Qed.

Lemma insert_item_ascending {V} (kv : string * V) (l : list (string * V)) :
  ascending (map fst l) = true ->
  ascending (map fst (insert_item kv l)) = true.
Proof.
  induction l as [| x l IH]; simpl; [reflexivity |].
  intros H. apply andb_prop in H. destruct H as [Hx Hl].
  destruct (String.leb (fst kv) (fst x)) eqn:E; simpl.
  - rewrite E, Hx, Hl. simpl. rewrite andb_true_r.
    rewrite forallb_forall in *. intros y Hy.
    apply (string_leb_trans _ (fst x)); auto.
  - rewrite (IH Hl), andb_true_r.
    rewrite forallb_forall in *. intros y Hy.
    apply (Permutation_in _ (Permutation_map fst (insert_item_perm kv l))) in Hy.
    destruct Hy as [<- | Hy]; [| now apply Hx].
    destruct (String.leb_total (fst x) (fst kv)) as [H | H]; [assumption |].
    congruence.
Qed.

Lemma sorted_items_ascending {V} (d : list (string * V)) :
  ascending (map fst (sorted_items d)) = true.
Proof.
  induction d as [| kv d IH]; simpl; [reflexivity |].
  now apply insert_item_ascending.
Qed.

End Ordering.

Section ReportGrouping.

Import Analyze Report.

Lemma dict_append_map {V} (F : string -> list V) (D : list string)
      (l : string) (v : V) :
  NoDup D ->
  dict_append (map (fun k => (k, F k)) D) l v =
  if existsb (String.eqb l) D
  then map (fun k => (k, if String.eqb l k then F k ++ [v] else F k)) D
  else map (fun k => (k, F k)) D ++ [(l, [v])].
Proof.
  induction D as [| k D IH]; intros Hnd; [reflexivity |].
  inversion Hnd as [| ? ? Hnotin Hnd']; subst.
  simpl. destruct (String.eqb l k) eqn:E.
  - simpl. f_equal. apply String.eqb_eq in E. subst k.
    apply map_ext_in. intros k' Hk'.
    destruct (String.eqb l k') eqn:E'; [| reflexivity].
    apply String.eqb_eq in E'. subst. contradiction.
  - simpl. rewrite (IH Hnd').
    now destruct (existsb (String.eqb l) D).
Qed.

Lemma under_key_snoc {V} (k : string) (ps : list (string * V))
      (l : string) (v : V) :
  under_key k (ps ++ [(l, v)]) =
  under_key k ps ++ (if String.eqb l k then [v] else []).
Proof.
  unfold under_key. rewrite filter_app, map_app. simpl.
  now destruct (String.eqb l k).
Qed.

Lemma under_key_nil {V} (k : string) (ps : list (string * V)) :
  ~ In k (map fst ps) -> under_key k ps = [].
Proof.
  induction ps as [| [l v] ps IH]; [reflexivity |].
  simpl. intros Hnot. unfold under_key in *. simpl.
  destruct (String.eqb l k) eqn:E.
  - apply String.eqb_eq in E. tauto.
  - apply IH. tauto.
Qed.

(** The dictionary the grouping loops build: one entry per distinct key, in
    order of first occurrence, with the key's values in arrival order. *)
Lemma group_pairs_grouped {V} (ps : list (string * V)) :
  group_pairs ps =
  map (fun k => (k, under_key k ps)) (distinct_labels (map fst ps)).
Proof.
  unfold group_pairs.
  induction ps as [| [l v] ps IH] using rev_ind; [reflexivity |].
  rewrite fold_left_snoc, IH. simpl.
  rewrite (dict_append_map _ _ _ _ (distinct_labels_nodup _)).
  rewrite map_app. simpl. rewrite distinct_labels_snoc.
  destruct (existsb (String.eqb l) (distinct_labels (map fst ps))) eqn:E.
  - apply map_ext. intros k. rewrite under_key_snoc.
    destruct (String.eqb l k); [reflexivity | now rewrite app_nil_r].
  - apply existsb_eqb_not_in in E.
    rewrite map_app. simpl. f_equal.
    + apply map_ext_in. intros k Hk. rewrite under_key_snoc.
      destruct (String.eqb l k) eqn:E'; [| now rewrite app_nil_r].
      apply String.eqb_eq in E'. subst. contradiction.
    + rewrite under_key_snoc, String.eqb_refl.
      rewrite under_key_nil; [reflexivity |].
      now rewrite <- distinct_labels_in.
Qed.

Lemma fold_left_map {A B C} (f : A -> B -> A) (g : C -> B) (l : list C) (a : A) :
  fold_left f (map g l) a = fold_left (fun a x => f a (g x)) l a.
Proof. revert a. induction l as [| x l IH]; intros a; simpl; auto. Qed.

Lemma under_key_records (k : string) (data : list sample) :
  under_key k (map (fun s => (label_or_unknown s, s)) data) = records_of k data.
Proof.
  unfold under_key, records_of, labelled_as.
  induction data as [| s data IH]; [reflexivity |].
  simpl. destruct (String.eqb (label_or_unknown s) k); simpl; now rewrite IH.
Qed.

Lemma group_samples_grouped (data : list sample) :
  group_samples data = map (fun k => (k, records_of k data)) (labels_of data).
Proof.
  unfold group_samples, labels_of.
  rewrite <- (fold_left_map (fun acc p => dict_append acc (fst p) (snd p))
                (fun s => (label_or_unknown s, s))).
  fold (group_pairs (map (fun s => (label_or_unknown s, s)) data)).
  rewrite group_pairs_grouped, map_map. simpl.
  apply map_ext. intros k. now rewrite under_key_records.
Qed.

Lemma map_result_snoc {A B} (f : A -> result B) (l : list A) (x : A) :
  map_result f (l ++ [x]) =
  match map_result f l with
  | Raise e => Raise e
  | Ok bs => match f x with Raise e => Raise e | Ok b => Ok (bs ++ [b]) end
  end.
Proof.
  induction l as [| a l IH]; simpl.
  - now destruct (f x).
  - destruct (f a) as [b |]; simpl; [| reflexivity].
    rewrite IH. destruct (map_result f l) as [bs |]; simpl; [| reflexivity].
    now destruct (f x).
Qed.

Lemma map_result_length {A B} (f : A -> result B) (l : list A) (bs : list B) :
  map_result f l = Ok bs -> length bs = length l.
Proof.
  revert bs. induction l as [| a l IH]; intros bs; simpl.
  - intros H. now injection H as <-.
  - destruct (f a) as [b |]; simpl; [| discriminate].
    destruct (map_result f l) as [bs' |]; simpl; [| discriminate].
    intros H. injection H as <-. simpl. now rewrite (IH bs').
Qed.

Lemma map_result_Forall2 {A B} (f : A -> result B) (l : list A) (bs : list B) :
  map_result f l = Ok bs -> Forall2 (fun a b => f a = Ok b) l bs.
Proof.
  revert bs. induction l as [| a l IH]; intros bs; simpl.
  - intros H. injection H as <-. constructor.
  - destruct (f a) as [b |] eqn:Ea; simpl; [| discriminate].
    destruct (map_result f l) as [bs' |]; simpl; [| discriminate].
    intros H. injection H as <-. constructor; auto.
Qed.

Lemma map_result_raise_in {A B} (f : A -> result B) (l : list A) (e : py_error) :
  map_result f l = Raise e -> exists a, In a l /\ f a = Raise e.
Proof.
  induction l as [| a l IH]; simpl; [discriminate |].
  destruct (f a) as [b |] eqn:Ea; simpl.
  - destruct (map_result f l) as [bs |]; simpl; [discriminate |].
    intros H. injection H as <-.
    destruct (IH eq_refl) as [a' [Hin Ha']].
    exists a'. split; [now right | assumption].
  - intros H. injection H as <-. exists a. split; [now left | assumption].
Qed.

Lemma map_result_ok_iff {A B} (f : A -> result B) (l : list A) :
  (exists bs, map_result f l = Ok bs) <->
  Forall (fun a => exists b, f a = Ok b) l.
Proof.
  induction l as [| a l IH]; simpl.
  - split; [constructor | now exists []].
  - split.
    + intros [bs H].
      destruct (f a) as [b |] eqn:Ea; simpl in H; [| discriminate].
      destruct (map_result f l) as [bs' |]; simpl in H; [| discriminate].
      constructor; [now exists b | apply IH; now exists bs'].
    + intros H. inversion H as [| ? ? [b Hb] Hl]; subst.
      apply IH in Hl. destruct Hl as [bs Hbs].
      exists (b :: bs). now rewrite Hb, Hbs.
Qed.

Lemma combine_snoc {A B} (l : list A) (l' : list B) (a : A) (b : B) :
  length l = length l' ->
  combine (l ++ [a]) (l' ++ [b]) = combine l l' ++ [(a, b)].
Proof.
  revert l'. induction l as [| x l IH]; intros [| y l']; simpl;
    try discriminate; [reflexivity |].
  intros H. injection H as H. now rewrite IH.
Qed.

(** The grouping loop of [compute_temporal_features] fails where the first
    record fails, and otherwise groups the statistics by label. *)
Lemma group_features_spec (data : list sample) :
  group_features data =
  match map_result compute_features data with
  | Raise e => Raise e
  | Ok fs => Ok (group_pairs (combine (map label_or_unknown data) fs))
  end.
Proof.
  unfold group_features.
  induction data as [| s data IH] using rev_ind; [reflexivity |].
  rewrite fold_left_snoc, IH, map_result_snoc.
  destruct (map_result compute_features data) as [fs |] eqn:E; [| reflexivity].
  simpl. destruct (compute_features s) as [f |]; [| reflexivity].
  simpl. f_equal. unfold group_pairs.
  rewrite map_app. simpl.
  rewrite combine_snoc
    by (rewrite length_map; symmetry; eapply map_result_length; eassumption).
  now rewrite fold_left_snoc.
Qed.

(** The statistics grouped under a label are those of the label's records,
    in their order. *)
Lemma under_key_features (k : string) (data : list sample) (fs : list features) :
  map_result compute_features data = Ok fs ->
  map_result compute_features (records_of k data) =
  Ok (under_key k (combine (map label_or_unknown data) fs)).
Proof.
  unfold under_key, records_of, labelled_as.
  revert fs. induction data as [| s data IH]; intros fs; simpl.
  - intros H. now injection H as <-.
  - destruct (compute_features s) as [f |] eqn:Es; simpl; [| discriminate].
    destruct (map_result compute_features data) as [fs' |]; simpl; [| discriminate].
    intros H. injection H as <-. simpl.
    destruct (String.eqb (label_or_unknown s) k); simpl.
    + now rewrite Es, (IH fs' eq_refl).
    + now apply IH.
Qed.

Lemma compute_features_ok_iff (s : sample) :
  (exists f, compute_features s = Ok f) <-> has_amplitude s.
Proof.
  unfold compute_features, has_amplitude.
  destruct (s_amp s) as [[| a amp] |]; simpl.
  - split; [intros [f H]; discriminate | intros [a [amp H]]; discriminate].
  - split; [intros _; now exists a, amp | intros _; eexists; reflexivity].
  - split; [intros [f H]; discriminate | intros [a [amp H]]; discriminate].
Qed.

Lemma compute_features_error (s : sample) (e : py_error) :
  compute_features s = Raise e -> amplitude_error e.
Proof.
  unfold compute_features, amplitude_error.
  destruct (s_amp s) as [[| a amp] |]; simpl; try discriminate.
  - intros H. injection H as <-. right. eexists. reflexivity.
  - intros H. injection H as <-. now left.
Qed.

End ReportGrouping.

Section ReportFailure.

Import Analyze Report.

Lemma records_cover (P : sample -> Prop) (data : list sample) :
  Forall (fun k => Forall P (records_of k data)) (labels_of data) <->
  Forall P data.
Proof.
  unfold labels_of, records_of. rewrite !Forall_forall. split.
  - intros H s Hs.
    specialize (H (label_or_unknown s)).
    rewrite Forall_forall in H. apply H.
    + apply distinct_labels_in. now apply in_map.
    + apply filter_In. split; [assumption |].
      unfold labelled_as. apply String.eqb_refl.
  - intros H k _. apply Forall_forall. intros s Hs.
    apply filter_In in Hs. now apply H.
Qed.

Lemma features_list_ok_iff (samples : list sample) :
  (exists fs, map_result compute_features samples = Ok fs) <->
  Forall has_amplitude samples.
Proof.
  rewrite map_result_ok_iff, !Forall_forall.
  split; intros H s Hs; apply compute_features_ok_iff; auto.
Qed.

Lemma summarize_ok_iff (item : string * list sample) :
  (exists r, summarize item = Ok r) <-> Forall has_amplitude (snd item).
Proof.
  rewrite <- features_list_ok_iff.
  destruct item as [label samples]. unfold summarize. simpl.
  destruct (map_result compute_features samples) as [fs |]; simpl.
  - split; intros _; eexists; reflexivity.
  - split; intros [x H]; discriminate.
Qed.

Lemma summarize_error (item : string * list sample) (e : py_error) :
  summarize item = Raise e -> amplitude_error e.
Proof.
  destruct item as [label samples]. unfold summarize.
  destruct (map_result compute_features samples) as [fs |] eqn:E; simpl;
    [discriminate |].
  intros H. injection H as <-.
  eapply map_result_raises; [| exact E].
  intros s e' _. apply compute_features_error.
Qed.

Lemma analyze_by_label_ok_iff (data : list sample) :
  (exists rows, analyze_by_label data = Ok rows) <-> Forall has_amplitude data.
Proof.
  unfold analyze_by_label.
  rewrite map_result_ok_iff, <- records_cover, group_samples_grouped.
  rewrite !Forall_forall. split.
  - intros H k Hk. apply (summarize_ok_iff (k, records_of k data)).
    apply H. apply (Permutation_in _ (Permutation_sym (sorted_items_perm _))).
    apply in_map_iff. now exists k.
  - intros H item Hitem.
    apply (Permutation_in _ (sorted_items_perm _)) in Hitem.
    apply in_map_iff in Hitem. destruct Hitem as [k [<- Hk]].
    apply summarize_ok_iff. simpl. now apply H.
Qed.

Lemma temporal_ok_iff (data : list sample) (window_size : Z) :
  (exists rows, compute_temporal_features data window_size = Ok rows) <->
  Forall has_amplitude data.
Proof.
  rewrite <- features_list_ok_iff.
  unfold compute_temporal_features. rewrite group_features_spec.
  destruct (map_result compute_features data) as [fs |]; simpl.
  - split; intros _; eexists; reflexivity.
  - split; intros [x H]; discriminate.
Qed.

(** X6.  The two printed reports of the analyzer are all-or-nothing in
    the same way: [analyze_by_label] and [compute_temporal_features] each
    return exactly when every record of the dataset has an amplitude with
    at least one entry.  One record without it aborts the whole report,
    with [KeyError 'amp'] when the key is missing and a [ValueError] when
    the array is empty; no other exception arises. *)
Theorem reports_need_amplitude (data : list sample) (window_size : Z) :
  ((exists rows, analyze_by_label data = Ok rows) <->
   Forall has_amplitude data) /\
  ((exists rows, compute_temporal_features data window_size = Ok rows) <->
   Forall has_amplitude data) /\
  (forall err,
     analyze_by_label data = Raise err \/
     compute_temporal_features data window_size = Raise err ->
     amplitude_error err /\
     exists s, In s data /\ ~ has_amplitude s /\
               compute_features s = Raise err).
Proof.
  split; [apply analyze_by_label_ok_iff |].
  split; [apply temporal_ok_iff |].
  intros err H.
  assert (Hs : exists s, In s data /\ compute_features s = Raise err).
  { destruct H as [H | H].
    - unfold analyze_by_label in H.
      apply map_result_raise_in in H. destruct H as [item [Hitem Hsum]].
      apply (Permutation_in _ (sorted_items_perm _)) in Hitem.
      rewrite group_samples_grouped in Hitem.
      apply in_map_iff in Hitem. destruct Hitem as [k [<- _]].
      unfold summarize in Hsum.
      destruct (map_result compute_features (records_of k data)) as [fs |] eqn:E;
        simpl in Hsum; [discriminate |].
      injection Hsum as <-.
      apply map_result_raise_in in E. destruct E as [s [Hs Hraise]].
      exists s. split; [| exact Hraise].
      apply filter_In in Hs. tauto.
    - unfold compute_temporal_features in H. rewrite group_features_spec in H.
      destruct (map_result compute_features data) as [fs |] eqn:E; simpl in H;
        [discriminate |].
      injection H as <-. now apply map_result_raise_in in E. }
  destruct Hs as [s [Hin Hraise]].
  split; [now apply (compute_features_error s) |].
  exists s. split; [exact Hin |]. split; [| exact Hraise].
  intros Hamp. apply compute_features_ok_iff in Hamp.
  destruct Hamp as [f Hf]. congruence.
Qed.

End ReportFailure.

Section ReportCounts.

Import Analyze Report.
Local Open Scope Z_scope.

Lemma sum_Z_perm (l l' : list Z) :
  Permutation l l' -> fold_right Z.add 0 l = fold_right Z.add 0 l'.
Proof. induction 1; simpl; lia. Qed.

Lemma sum_Z_add {A} (f g : A -> Z) (l : list A) :
  fold_right Z.add 0 (map (fun a => f a + g a) l) =
  fold_right Z.add 0 (map f l) + fold_right Z.add 0 (map g l).
Proof. induction l as [| a l IH]; simpl; lia. Qed.

Lemma indicator_sum (l : string) (D : list string) :
  NoDup D ->
  fold_right Z.add 0 (map (fun k => if String.eqb l k then 1 else 0) D) =
  if existsb (String.eqb l) D then 1 else 0.
Proof.
  induction 1 as [| k D Hnotin Hnd IH]; [reflexivity |].
  simpl. rewrite IH. destruct (String.eqb l k) eqn:E; simpl; [| lia].
  apply String.eqb_eq in E. subst k.
  apply existsb_eqb_not_in in Hnotin. now rewrite Hnotin.
Qed.

(** Every record falls under exactly one label. *)
Lemma records_partition (D : list string) (data : list sample) :
  NoDup D -> Forall (fun s => In (label_or_unknown s) D) data ->
  fold_right Z.add 0 (map (fun k => py_len (records_of k data)) D) =
  py_len data.
Proof.
  intros Hnd. induction 1 as [| s data Hs _ IH].
  - unfold records_of, py_len. simpl.
    clear Hnd. induction D as [| k D IHD]; simpl; lia.
  - rewrite (map_ext _ (fun k => (if String.eqb (label_or_unknown s) k then 1 else 0)
                                 + py_len (records_of k data))).
    + rewrite sum_Z_add, IH, (indicator_sum _ _ Hnd).
      apply existsb_eqb_in in Hs. rewrite Hs.
      unfold py_len. simpl length. lia.
    + intros k. unfold records_of, labelled_as, py_len. simpl.
      destruct (String.eqb (label_or_unknown s) k); simpl length; lia.
Qed.

Lemma labels_of_nodup (data : list sample) : NoDup (labels_of data).
Proof. apply distinct_labels_nodup. Qed.

Lemma labels_of_in (data : list sample) (s : sample) :
  In s data -> In (label_or_unknown s) (labels_of data).
Proof. intros H. apply distinct_labels_in. now apply in_map. Qed.

Lemma records_of_nonempty (k : string) (data : list sample) :
  In k (labels_of data) -> 1 <= py_len (records_of k data).
Proof.
  intros H. apply distinct_labels_in, in_map_iff in H.
  destruct H as [s [Hk Hs]].
  assert (Hin : In s (records_of k data)).
  { apply filter_In. split; [assumption |].
    unfold labelled_as. rewrite Hk. apply String.eqb_refl. }
  unfold py_len. destruct (records_of k data); [destruct Hin | simpl; lia].
Qed.

Lemma summarize_row (item : string * list sample) (r : label_summary) :
  summarize item = Ok r ->
  ls_label r = fst item /\ ls_count r = py_len (snd item).
Proof.
  destruct item as [label samples]. unfold summarize.
  destruct (map_result compute_features samples) as [fs |]; simpl;
    [| discriminate].
  intros H. injection H as <-. now split.
Qed.

Lemma Forall2_map_eq {A B C} (f : A -> C) (g : B -> C)
      (l : list A) (l' : list B) :
  Forall2 (fun a b => f a = g b) l l' -> map f l = map g l'.
Proof. induction 1; simpl; congruence. Qed.

Lemma sorted_groups_keys {V} (F : string -> V) (D : list string) :
  Permutation (map fst (sorted_items (map (fun k => (k, F k)) D))) D.
Proof.
  rewrite (Permutation_map fst (sorted_items_perm _)).
  rewrite map_map. simpl. now rewrite map_id.
Qed.

(** X7.  The report of [analyze_by_label] has one block per label that
    occurs in the dataset (a record without label counting as [unknown]),
    the blocks come in ascending order of the label, and the number of
    samples a block states is the number of records with that label: at
    least one, and over all blocks the numbers add up to [len(data)], so
    every record is counted exactly once. *)
Theorem analyze_by_label_counts (data : list sample) (rows : list label_summary) :
  analyze_by_label data = Ok rows ->
  Permutation (map ls_label rows) (labels_of data) /\
  NoDup (map ls_label rows) /\
  ascending (map ls_label rows) = true /\
  Forall (fun r => ls_count r = py_len (records_of (ls_label r) data) /\
                   1 <= ls_count r) rows /\
  fold_right Z.add 0 (map ls_count rows) = py_len data.
Proof.
  unfold analyze_by_label. rewrite group_samples_grouped.
  set (items := sorted_items _). intros H.
  apply map_result_Forall2 in H.
  assert (Hitems : Forall (fun item => In (fst item) (labels_of data) /\
                                       snd item = records_of (fst item) data) items).
  { apply Forall_forall. intros item Hin.
    apply (Permutation_in _ (sorted_items_perm _)) in Hin.
    apply in_map_iff in Hin. destruct Hin as [k [<- Hk]]. now split. }
  assert (Hlabels : map ls_label rows = map fst items).
  { symmetry. apply Forall2_map_eq.
    eapply Forall2_impl; [| exact H].
    intros item r Hr. simpl. symmetry. now apply summarize_row. }
  assert (Hcounts : map ls_count rows = map (fun item => py_len (snd item)) items).
  { symmetry. apply Forall2_map_eq.
    eapply Forall2_impl; [| exact H].
    intros item r Hr. simpl. symmetry. now apply summarize_row. }
  assert (Hperm : Permutation (map ls_label rows) (labels_of data)).
  { rewrite Hlabels. apply sorted_groups_keys. }
  split; [exact Hperm |].
  split; [apply (Permutation_NoDup (Permutation_sym Hperm)), labels_of_nodup |].
  split; [rewrite Hlabels; apply sorted_items_ascending |].
  split.
  - clear Hlabels Hcounts Hperm.
    induction H as [| item r items' rows' Hr _ IH]; [constructor |].
    inversion Hitems as [| ? ? [Hk Hsnd] Hrest]; subst.
    constructor; [| now apply IH].
    apply summarize_row in Hr. destruct Hr as [-> ->].
    rewrite Hsnd. split; [reflexivity | now apply records_of_nonempty].
  - rewrite Hcounts. subst items.
    rewrite (sum_Z_perm _ _ (Permutation_map _ (sorted_items_perm _))).
    rewrite map_map. simpl.
    apply records_partition; [apply labels_of_nodup |].
    apply Forall_forall. intros s. apply labels_of_in.
Qed.

End ReportCounts.

Lemma analyze_by_label_counts_witness :
  exists rows,
    Report.analyze_by_label Report.report_data = Ok rows /\
    map Report.ls_label rows = ["unknown"; "walking"]%string /\
    map Report.ls_count rows = [1; 2]%Z /\
    fold_right Z.add 0%Z (map Report.ls_count rows) = py_len Report.report_data.
Proof.
  eexists. split; [reflexivity |].
  split; [reflexivity |]. split; [reflexivity |].
  apply (analyze_by_label_counts Report.report_data). reflexivity.
Defined.

Section ReportTemporal.

Import Analyze Report.
Local Open Scope Z_scope.

Lemma map_fst_combine {A B} (l : list A) (l' : list B) :
  length l = length l' -> map fst (combine l l') = l.
Proof.
  revert l'. induction l as [| a l IH]; intros [| b l']; simpl;
    try discriminate; [reflexivity |].
  intros H. injection H as H. now rewrite IH.
Qed.

(** The rows of the temporal report: the statistics of each label's records,
    in the order of the sorted labels. *)
Lemma temporal_rows (data : list sample) (window_size : Z)
      (rows : list temporal_row) :
  compute_temporal_features data window_size = Ok rows ->
  exists F : string -> list features,
    (forall k, map_result compute_features (records_of k data) = Ok (F k)) /\
    rows = map (temporal_row_of window_size)
               (sorted_items (map (fun k => (k, F k)) (labels_of data))).
Proof.
  unfold compute_temporal_features. rewrite group_features_spec.
  destruct (map_result compute_features data) as [fs |] eqn:E; simpl;
    [| discriminate].
  intros H. injection H as <-.
  exists (fun k => under_key k (combine (map label_or_unknown data) fs)).
  split.
  - intros k. now apply under_key_features.
  - rewrite group_pairs_grouped, map_fst_combine; [reflexivity |].
    rewrite length_map. symmetry. now apply (map_result_length _ _ _ E).
Qed.







End ReportTemporal.

Section ReportTemporalShape.

Import Analyze Report.
Local Open Scope Z_scope.



End ReportTemporalShape.

Section ReportSteady.

Import Analyze Report.
Local Open Scope Z_scope.

Lemma np_sum_repeat (c : R) (n : nat) : np_sum (repeat c n) = (INR n * c)%R.
Proof.
  induction n as [| n IH]; [simpl; lra |].
  rewrite S_INR. simpl repeat. simpl np_sum. rewrite IH. lra.
Qed.

Lemma np_mean_repeat (c : R) (n : nat) : np_mean (repeat c (S n)) = c.
Proof.
  unfold np_mean. rewrite np_sum_repeat, repeat_length.
  field. apply not_0_INR. discriminate.
Qed.

(** A constant sequence has no spread. *)
Lemma np_std_repeat (c : R) (n : nat) : np_std (repeat c n) 0 = 0%R.
Proof.
  destruct n as [| n].
  - unfold np_std, np_var. simpl. unfold Rdiv. rewrite Rmult_0_l. apply sqrt_0.
  - unfold np_std, np_var. rewrite np_mean_repeat, map_repeat.
    replace ((c - c) * (c - c))%R with 0%R by ring.
    rewrite np_sum_zeros. unfold Rdiv. rewrite Rmult_0_l. apply sqrt_0.
Qed.

Lemma map_constant {A B} (f : A -> B) (b : B) (l : list A) :
  Forall (fun a => f a = b) l -> map f l = repeat b (length l).
Proof.
  induction 1 as [| a l Ha _ IH]; [reflexivity |].
  simpl. now rewrite Ha, IH.
Qed.

Lemma py_slice_in {A} (l : list A) (lo hi : Z) (x : A) :
  In x (py_slice l lo hi) -> In x l.
Proof.
  unfold py_slice. intros H. apply firstn_in in H. now apply skipn_in in H.
Qed.

Lemma temporal_sequences_steady (window_size : Z) (fl : list features) (c : R) :
  Forall (fun f => amp_std f = c) fl ->
  fst (temporal_sequences window_size fl) =
  repeat 0%R (Z.to_nat (py_len fl - window_size + 1)).
Proof.
  intros Hc. unfold temporal_sequences. simpl fst.
  rewrite map_map.
  rewrite (map_constant _ 0%R), py_range_length; [reflexivity |].
  apply Forall_forall. intros x Hx.
  apply in_map_iff in Hx. destruct Hx as [i [<- _]].
  rewrite (map_constant _ c); [apply np_std_repeat |].
  apply Forall_forall. intros f Hf.
  apply py_slice_in in Hf.
  rewrite Forall_forall in Hc. now apply Hc.
Qed.

Lemma Forall2_in_r {A B} (R : A -> B -> Prop) (l : list A) (l' : list B) (b : B) :
  Forall2 R l l' -> In b l' -> exists a, In a l /\ R a b.
Proof.
  induction 1 as [| a b' l l' Hab _ IH]; [intros [] |].
  intros [<- | Hin].
  - exists a. split; [now left | assumption].
  - destruct (IH Hin) as [a' [Ha' Hr]]. exists a'. split; [now right | assumption].
Qed.

(** X9.  A label whose records all have the same amplitude deviation is
    reported as stable.  For [W >= 1] and a label with [N >= W] records
    whose [amp_std] statistics all equal one value (of ordinary size, at
    most [10^6]), the temporal report holds a block for the label with
    [N - W + 1] amplitude entries and the stability verdict true. *)
Theorem steady_label_is_stable (data : list sample) (window_size : Z)
        (rows : list temporal_row) (l : string) (c : R) :
  1 <= window_size ->
  compute_temporal_features data window_size = Ok rows ->
  window_size <= py_len (records_of l data) ->
  (Rabs c <= 1000000)%R ->
  Forall (fun s => forall f, compute_features s = Ok f -> amp_std f = c)
         (records_of l data) ->
  exists a p ma mp,
    In (Temporal l a p ma mp true) rows /\
    py_len a = py_len (records_of l data) - window_size + 1.
Proof.
  intros HW H HN _ Hc.
  apply temporal_rows in H. destruct H as (F & HF & ->).
  assert (Hlen : py_len (records_of l data) = py_len (F l)).
  { unfold py_len. now rewrite (map_result_length _ _ _ (HF l)). }
  assert (Hl : In l (labels_of data)).
  { destruct (records_of l data) as [| s rest] eqn:E.
    - unfold py_len in HN. simpl in HN. lia.
    - assert (Hs : In s (records_of l data)) by (rewrite E; now left).
      apply filter_In in Hs. destruct Hs as [Hs Hlab].
      unfold labelled_as in Hlab. apply String.eqb_eq in Hlab. subst l.
      now apply labels_of_in. }
  assert (Hstd : Forall (fun f => amp_std f = c) (F l)).
  { apply Forall_forall. intros f Hf.
    destruct (Forall2_in_r _ _ _ _ (map_result_Forall2 _ _ _ (HF l)) Hf)
      as [s [Hs Hsf]].
    rewrite Forall_forall in Hc. now apply (Hc s). }
  pose proof (temporal_sequences_steady window_size (F l) c Hstd) as Hseq.
  exists (fst (temporal_sequences window_size (F l))),
         (snd (temporal_sequences window_size (F l))),
         (np_mean (fst (temporal_sequences window_size (F l)))),
         (np_mean (snd (temporal_sequences window_size (F l)))).
  split.
  - apply in_map_iff. exists (l, F l). split.
    + unfold temporal_row_of.
      destruct (py_len (F l) <? window_size) eqn:E;
        [apply Z.ltb_lt in E; lia |].
      destruct (temporal_sequences window_size (F l)) as [a p].
      simpl in Hseq. simpl fst. simpl snd. subst a. rewrite np_mean_zeros.
      destruct (Rlt_dec 0 5.0) as [_ | Hn]; [reflexivity | exfalso; lra].
    + apply (Permutation_in _ (Permutation_sym (sorted_items_perm _))).
      apply in_map_iff. now exists l.
  - rewrite Hseq, Hlen. unfold py_len at 1. rewrite repeat_length.
    unfold py_len in *. lia.
Qed.

Lemma steady_label_is_stable_witness :
  exists rows a p ma mp,
    compute_temporal_features steady_data 2 = Ok rows /\
    In (Temporal "empty" a p ma mp true) rows /\
    py_len a = 2.
Proof.
  assert (Hok : exists rows, compute_temporal_features steady_data 2 = Ok rows)
    by (eexists; reflexivity).
  destruct Hok as [rows Hrows].
  destruct (steady_label_is_stable steady_data 2 rows "empty" (np_std [4%R; 6%R] 0))
    as (a & p & ma & mp & Hin & Hlen).
  - lia.
  - exact Hrows.
  - unfold py_len. simpl. lia.
  - assert (Hone : np_std [4%R; 6%R] 0 = 1%R).
    { unfold np_std, np_var, np_mean, np_sum. simpl.
      replace ((4 - (4 + (6 + 0)) / (1 + 1)) * (4 - (4 + (6 + 0)) / (1 + 1)) +
               ((6 - (4 + (6 + 0)) / (1 + 1)) * (6 - (4 + (6 + 0)) / (1 + 1)) + 0))%R
        with 2%R by field.
      replace (2 / (1 + 1))%R with 1%R by field. apply sqrt_1. }
    rewrite Hone, Rabs_R1. lra.
  - simpl. repeat constructor; intros f H; injection H as <-; reflexivity.
  - exists rows, a, p, ma, mp. split; [exact Hrows |]. split; [exact Hin |].
    exact Hlen.
Defined.

End ReportSteady.
